(** * great_expectations: column-map expectations and partition objects

    A shallow embedding of
      - [great_expectations/dataset/util.py]
      - [great_expectations/dataset/sqlalchemy_dataset.py]
    Python integers are [Z]; Python floats are read in exact arithmetic as
    rationals [Q] (compared with [Qeq]); Python exceptions are the [exn]
    constructors carried by the [result] type. *)

From Stdlib Require Import ZArith QArith Qminmax Qround Qabs Lia Lqa List String Ascii Bool Sorted.
From stdpp Require Import base option list gmap strings.

Local Open Scope string_scope.

(** ** Exceptions and fallible results *)

Inductive exn : Type :=
  | ValueError (msg : string)
  | TypeError (msg : string)
  | KeyError (key : string)
  | IndexError (msg : string)
  | BackendError (detail : string)
  | ConfigurationError (msg : string)
  | FloatingPointError (msg : string).

Inductive result (A : Type) : Type :=
  | Ok (a : A)
  | Raise (e : exn).
Arguments Ok {A} a.
Arguments Raise {A} e.

Definition rbind {A B} (r : result A) (k : A -> result B) : result B :=
  match r with
  | Ok a => k a
  | Raise e => Raise e
  end.

Definition is_ok {A} (r : result A) : bool :=
  match r with Ok _ => true | Raise _ => false end.

(** ** Python values

    The classes that [util.py] tells apart with [isinstance], and [PyOther]
    for an object of any other class, given by its [str()] and the
    [__name__] of its type.  A [PyDict] lists its items in iteration order;
    [PySet] lists its members in iteration order; [NpArray] and [PdIndex]
    carry what [.tolist()] returns. *)

#[local] Unset Elimination Schemes.
Inductive pyval : Type :=
  | PyNone
  | PyBool (b : bool)
  | PyInt (z : Z)
  | PyFloat (q : Q)
  | PyStr (s : string)
  | PyDict (items : list (string * pyval))
  | PyList (l : list pyval)
  | PyTuple (l : list pyval)
  | PySet (l : list pyval)
  | NpArray (tolist : list pyval)
  | PdIndex (tolist : list pyval)
  | NpInt64 (z : Z)
  | NpFloat64 (q : Q)
  | PyDatetime (str : string)
  | PyDate (str : string)
  | PyOther (str : string) (type_name : string).
#[local] Set Elimination Schemes.

(** Induction on values, with the hypothesis for every member of a
    container. *)
Section PyvalInd.
Variable P : pyval -> Prop.
Hypothesis HNone : P PyNone.
Hypothesis HBool : forall b, P (PyBool b).
Hypothesis HInt : forall z, P (PyInt z).
Hypothesis HFloat : forall q, P (PyFloat q).
Hypothesis HStr : forall s, P (PyStr s).
Hypothesis HDict : forall items, Forall (fun kv => P kv.2) items -> P (PyDict items).
Hypothesis HList : forall l, Forall P l -> P (PyList l).
Hypothesis HTuple : forall l, Forall P l -> P (PyTuple l).
Hypothesis HSet : forall l, Forall P l -> P (PySet l).
Hypothesis HArray : forall l, Forall P l -> P (NpArray l).
Hypothesis HIndex : forall l, Forall P l -> P (PdIndex l).
Hypothesis HInt64 : forall z, P (NpInt64 z).
Hypothesis HFloat64 : forall q, P (NpFloat64 q).
Hypothesis HDatetime : forall s, P (PyDatetime s).
Hypothesis HDate : forall s, P (PyDate s).
Hypothesis HOther : forall s t, P (PyOther s t).

Fixpoint pyval_ind (v : pyval) : P v :=
  let all := fix all (l : list pyval) : Forall P l :=
    match l with
    | [] => List.Forall_nil _
    | x :: r => List.Forall_cons _ _ _ (pyval_ind x) (all r)
    end in
  match v with
  | PyNone => HNone
  | PyBool b => HBool b
  | PyInt z => HInt z
  | PyFloat q => HFloat q
  | PyStr s => HStr s
  | PyDict items =>
      HDict items
        ((fix alld (l : list (string * pyval)) : Forall (fun kv => P kv.2) l :=
            match l with
            | [] => List.Forall_nil _
            | (k, x) :: r => List.Forall_cons _ (k, x) _ (pyval_ind x) (alld r)
            end) items)
  | PyList l => HList l (all l)
  | PyTuple l => HTuple l (all l)
  | PySet l => HSet l (all l)
  | NpArray l => HArray l (all l)
  | PdIndex l => HIndex l (all l)
  | NpInt64 z => HInt64 z
  | NpFloat64 q => HFloat64 q
  | PyDatetime s => HDatetime s
  | PyDate s => HDate s
  | PyOther s t => HOther s t
  end.
End PyvalInd.

(** ** The object store

    [parse_result_format] writes into the dict it is given, so dicts that are
    passed around live in a store and are named by their location.  A
    [result_format] argument is a string or a reference to a dict. *)

Abbreviation loc := positive (only parsing).
Abbreviation pydict := (gmap string pyval) (only parsing).
Abbreviation heap := (gmap positive (gmap string pyval)) (only parsing).

Inductive pyarg : Type :=
  | AStr (s : string)
  | ARef (l : loc).

(** [{'result_format': result_format, 'partial_unexpected_count': 20}] *)
Definition new_result_format (s : string) : pydict :=
  <["partial_unexpected_count" := PyInt 20]>
    (<["result_format" := PyStr s]> ∅).

Definition heap_alloc (h : heap) (d : pydict) : heap * loc :=
  let l := fresh (dom h) in (<[l := d]> h, l).

(** util.py, [parse_result_format]: returns the store after the call and the
    location of the dict that is returned. *)
Definition parse_result_format (h : heap) (result_format : pyarg) : heap * loc :=
  match result_format with
  | AStr s => heap_alloc h (new_result_format s)
  | ARef l =>
      let d := h !!! l in
      match d !! "partial_unexpected_count" with
      | None => (<[l := <["partial_unexpected_count" := PyInt 20]> d]> h, l)
      | Some _ => (h, l)
      end
  end.

(** ** JSON serialization (util.py) *)

Section MapM.
Context {A B : Type} (f : A -> result B).

(** A Python loop that appends [f x] for each [x] in turn and stops at the
    first exception. *)
Fixpoint mapM (l : list A) : result (list B) :=
  match l with
  | [] => Ok []
  | x :: rest =>
      rbind (f x) (fun y => rbind (mapM rest) (fun ys => Ok (y :: ys)))
  end.
End MapM.

(** ['%s is of type %s which cannot be serialized.' % (str(test_obj),
    type(test_obj).__name__)] *)
Definition cannot_be_serialized (str type_name : string) : string :=
  str ++ " is of type " ++ type_name ++ " which cannot be serialized.".

(** util.py, [recursively_convert_to_json_serializable].  [np.float64] is a
    subclass of [float], so the first [isinstance] test already returns it
    unchanged and the branch that rounds it is never reached; [bool] is a
    subclass of [int]; [np.int64] is not one of [six.integer_types]. *)
Fixpoint recursively_convert_to_json_serializable (test_obj : pyval)
  : result pyval :=
  match test_obj with
  | PyStr _ | PyInt _ | PyFloat _ | PyBool _ | NpFloat64 _ => Ok test_obj
  | PyNone => Ok test_obj
  | PyDict items =>
      rbind (mapM (fun kv : string * pyval =>
                     let '(key, val) := kv in
                     rbind (recursively_convert_to_json_serializable val)
                           (fun v => Ok (key, v))) items)
            (fun new_dict => Ok (PyDict new_dict))
  | PyList l | PyTuple l | PySet l =>
      rbind (mapM recursively_convert_to_json_serializable l)
            (fun new_list => Ok (PyList new_list))
  | NpArray tolist | PdIndex tolist =>
      rbind (mapM recursively_convert_to_json_serializable tolist)
            (fun xs => Ok (PyList xs))
  | NpInt64 z => Ok (PyInt z)
  | PyDatetime str | PyDate str => Ok (PyStr str)
  | PyOther str type_name =>
      Raise (TypeError (cannot_be_serialized str type_name))
  end.

(** The values made only of the classes the function converts. *)
Fixpoint json_convertible (v : pyval) : bool :=
  match v with
  | PyOther _ _ => false
  | PyDict items => forallb (fun kv : string * pyval => json_convertible kv.2) items
  | PyList l | PyTuple l | PySet l | NpArray l | PdIndex l =>
      forallb json_convertible l
  | _ => true
  end.

(** The values [json.dumps] takes as they are. *)
Fixpoint json_native (v : pyval) : bool :=
  match v with
  | PyNone | PyBool _ | PyInt _ | PyFloat _ | PyStr _ | NpFloat64 _ => true
  | PyDict items => forallb (fun kv : string * pyval => json_native kv.2) items
  | PyList l => forallb json_native l
  | _ => false
  end.

(** [subvalue x v]: [x] occurs in [v], at any depth. *)
Inductive subvalue (x : pyval) : pyval -> Prop :=
  | sub_here : subvalue x x
  | sub_dict k v items :
      In (k, v) items -> subvalue x v -> subvalue x (PyDict items)
  | sub_list v l : In v l -> subvalue x v -> subvalue x (PyList l)
  | sub_tuple v l : In v l -> subvalue x v -> subvalue x (PyTuple l)
  | sub_set v l : In v l -> subvalue x v -> subvalue x (PySet l)
  | sub_array v l : In v l -> subvalue x v -> subvalue x (NpArray l)
  | sub_index v l : In v l -> subvalue x v -> subvalue x (PdIndex l).

(** ** The SQL backend (sqlalchemy)

    A table has named columns and rows of cells; the engine is a database of
    named tables.  The queries the data set builds are kept as data, so that
    the queries the engine was asked to execute can be recorded. *)

Inductive sqlval : Type :=
  | SqlNull
  | SqlInt (z : Z)
  | SqlText (s : string).

#[global] Instance sqlval_eq_dec : EqDecision sqlval.
Proof. solve_decision. Defined.

Record sqltable : Type := mk_table {
  t_columns : list string;
  t_rows : list (list sqlval)
}.

Inductive selection : Type :=
  | CountStar                      (* select([sa_func.count()]) *)
  | SelColumn (c : string).        (* select([sa_column(c)]) *)

Inductive where_clause : Type :=
  | IsNotNull (c : string)                      (* sa_column(c) != None *)
  | NotIn (c : string) (vals : list sqlval).    (* sa_column(c).notin_(vals) *)

Record query : Type := mk_query {
  q_select : selection;
  q_from : string;
  q_where : option where_clause;
  q_limit : option nat
}.

Definition select_from (sel : selection) (tbl : string) : query :=
  mk_query sel tbl None None.
Definition where_ (q : query) (w : where_clause) : query :=
  mk_query (q_select q) (q_from q) (Some w) (q_limit q).
Definition limit (q : query) (n : nat) : query :=
  mk_query (q_select q) (q_from q) (q_where q) (Some n).

(** SQL's three-valued logic. *)
Inductive tri : Type := TTrue | TFalse | TUnknown.

Definition tri_not (t : tri) : tri :=
  match t with TTrue => TFalse | TFalse => TTrue | TUnknown => TUnknown end.

(** [x IN (vals)].  An empty [vals] is rendered as a test that is false
    whatever [x] is, null included.  Otherwise: unknown on a null [x]; true
    when some member equals [x]; unknown when none does but a member is
    null; false otherwise. *)
Definition sql_in (x : sqlval) (vals : list sqlval) : tri :=
  match vals with
  | [] => TFalse
  | _ :: _ =>
      match x with
      | SqlNull => TUnknown
      | _ => if bool_decide (x ∈ vals) then TTrue
             else if bool_decide (SqlNull ∈ vals) then TUnknown
             else TFalse
      end
  end.

Fixpoint column_index (c : string) (cols : list string) : option nat :=
  match cols with
  | [] => None
  | c' :: rest => if String.eqb c c' then Some 0%nat
                  else option_map S (column_index c rest)
  end.

Definition cell (i : nat) (row : list sqlval) : sqlval := nth i row SqlNull.

Definition no_such_column (c : string) : exn :=
  BackendError ("no such column: " ++ c).
Definition no_such_table (t : string) : exn :=
  BackendError ("no such table: " ++ t).

Definition resolve_column (t : sqltable) (c : string) : result nat :=
  match column_index c (t_columns t) with
  | Some i => Ok i
  | None => Raise (no_such_column c)
  end.

(** The rows a WHERE clause keeps: those on which it is true. *)
Definition where_rows (t : sqltable) (w : option where_clause)
  : result (list (list sqlval)) :=
  match w with
  | None => Ok (t_rows t)
  | Some (IsNotNull c) =>
      rbind (resolve_column t c) (fun i =>
        Ok (List.filter (fun row => negb (bool_decide (cell i row = SqlNull)))
                        (t_rows t)))
  | Some (NotIn c vals) =>
      rbind (resolve_column t c) (fun i =>
        Ok (List.filter
              (fun row => match tri_not (sql_in (cell i row) vals) with
                          | TTrue => true
                          | _ => false
                          end)
              (t_rows t)))
  end.

Definition apply_limit {A} (n : option nat) (l : list A) : list A :=
  match n with
  | None => l
  | Some k => firstn k l
  end.

(** The rows of the (one-column) result set of a query. *)
Definition execute (db : gmap string sqltable) (q : query) : result (list sqlval) :=
  match db !! q_from q with
  | None => Raise (no_such_table (q_from q))
  | Some t =>
      rbind (where_rows t (q_where q)) (fun rows =>
        match q_select q with
        | CountStar =>
            Ok (apply_limit (q_limit q) [SqlInt (Z.of_nat (length rows))])
        | SelColumn c =>
            rbind (resolve_column t c) (fun i =>
              Ok (apply_limit (q_limit q) (List.map (cell i) rows)))
        end)
  end.

(** [.scalar()]: the first column of the first row, None when there is no
    row. *)
Definition scalar (rows : list sqlval) : sqlval :=
  match rows with
  | [] => SqlNull
  | x :: _ => x
  end.

(** ** Effects: the object store and the trace of executed queries

    A computation reads and writes the object store and returns a value or
    raises; it also emits, in order, the queries it had the engine execute.
    What was emitted before an exception is kept, so that what was done
    before a failure can be observed. *)

Record outcome (A : Type) : Type := mk_outcome {
  o_result : result A;
  o_heap : gmap positive (gmap string pyval);
  o_trace : list query
}.
Arguments mk_outcome {A} _ _ _.
Arguments o_result {A} _.
Arguments o_heap {A} _.
Arguments o_trace {A} _.

Definition M (A : Type) : Type := gmap positive (gmap string pyval) -> outcome A.

#[global] Instance M_ret : MRet M := fun A a h => mk_outcome (Ok a) h [].
#[global] Instance M_bind : MBind M := fun A B k c h =>
  let o := c h in
  match o_result o with
  | Ok a =>
      let o' := k a (o_heap o) in
      mk_outcome (o_result o') (o_heap o') (o_trace o ++ o_trace o')
  | Raise e => mk_outcome (Raise e) (o_heap o) (o_trace o)
  end.
#[global] Instance M_fmap : FMap M := fun A B f c h =>
  let o := c h in
  mk_outcome (match o_result o with Ok a => Ok (f a) | Raise e => Raise e end)
             (o_heap o) (o_trace o).

Definition mraise {A} (e : exn) : M A := fun h => mk_outcome (Raise e) h [].
Definition lift_result {A} (r : result A) : M A := fun h => mk_outcome r h [].

(** [engine.execute(q)]: the query is emitted and answered. *)
Definition engine_execute (db : gmap string sqltable) (q : query) : M (list sqlval) :=
  fun h => mk_outcome (execute db q) h [q].

(** Integer arithmetic on what the database returned. *)
Definition as_int (v : sqlval) : result Z :=
  match v with
  | SqlInt z => Ok z
  | SqlNull => Raise (TypeError "unsupported operand type(s) for -: 'NoneType'")
  | SqlText _ => Raise (TypeError "unsupported operand type(s) for -: 'str'")
  end.

Definition py_sub (a b : sqlval) : result sqlval :=
  rbind (as_int a) (fun x => rbind (as_int b) (fun y => Ok (SqlInt (x - y)))).

(** ** sqlalchemy_dataset.py *)

Record SqlAlchemyDataSet : Type := mk_dataset {
  table_name : string;
  engine : gmap string sqltable;
  default_expectation_args : gmap string pyarg
}.

(** What a wrapped expectation returns:
    [{'unexpected_count': ..., 'partial_unexpected_list': ...}]. *)
Record func_result : Type := mk_func_result {
  fr_unexpected_count : sqlval;
  fr_partial_unexpected_list : list sqlval
}.

(** The two methods of the base class [DataSet] that [inner_wrapper] calls.
    The base class is not part of these sources, so the wrapper is defined
    over any implementation of them. *)
Class DataSet (Ret : Type) : Type := {
  _calc_map_expectation_success :
    sqlval -> sqlval -> option Q -> M (bool * option Q);
  _format_column_map_output :
    pyarg -> bool -> sqlval -> option unit -> sqlval -> option unit ->
    sqlval -> list sqlval -> option unit -> M Ret
}.

Definition count_query (self : SqlAlchemyDataSet) : query :=
  select_from CountStar (table_name self).
Definition null_count_query (self : SqlAlchemyDataSet) (column : string) : query :=
  where_ (select_from CountStar (table_name self)) (IsNotNull column).

Section ColumnMapExpectation.
Context {Ret : Type} `{!DataSet Ret} {Args : Type}.
Variable func : SqlAlchemyDataSet -> string -> Args -> M func_result.

(** [MetaSqlAlchemyDataSet.column_map_expectation(func)] *)
Definition inner_wrapper (self : SqlAlchemyDataSet) (column : string)
    (mostly : option Q) (result_format : option pyarg) (args : Args) : M Ret :=
  result_format ←
    match result_format with
    | None =>
        match default_expectation_args self !! "result_format" with
        | Some rf => mret rf
        | None => mraise (KeyError "result_format")
        end
    | Some rf => mret rf
    end;
  null_count ← scalar <$> engine_execute (engine self) (null_count_query self column);
  element_count ← scalar <$> engine_execute (engine self) (count_query self);
  nonnull_count ← lift_result (py_sub element_count null_count);
  result ← func self column args;
  success_count ← lift_result (py_sub nonnull_count (fr_unexpected_count result));
  '(success, percent_success) ←
    _calc_map_expectation_success success_count nonnull_count mostly;
  _format_column_map_output result_format success
    element_count None nonnull_count None success_count
    (fr_partial_unexpected_list result) None.
End ColumnMapExpectation.

Definition unexpected_count_limit : nat := 20.

(** [SqlAlchemyDataSet.expect_column_values_to_be_in_set], the function that
    is wrapped. *)
Definition expect_column_values_to_be_in_set (self : SqlAlchemyDataSet)
    (column : string) (values_set : list sqlval) : M func_result :=
  let test :=
    where_ (select_from (SelColumn column) (table_name self)) (NotIn column values_set) in
  let test_count :=
    where_ (select_from CountStar (table_name self)) (NotIn column values_set) in
  test_results ← engine_execute (engine self) (limit test unexpected_count_limit);
  unexpected_count ← scalar <$> engine_execute (engine self) test_count;
  let partial_unexpected_list := test_results in
  mret (mk_func_result unexpected_count partial_unexpected_list).

(** ** The base class, from its specification *)

(** The Expectation Result record of the data model. *)
Record ExpectationResult : Type := mk_expectation_result {
  er_success : bool;
  er_element_count : Z;
  er_missing_count : Z;
  er_missing_percent : option Q;
  er_unexpected_count : Z;
  er_unexpected_percent : option Q;
  er_partial_unexpected_list : list sqlval
}.

Definition percent (n d : Z) : option Q :=
  if (d =? 0)%Z then None else Some (inject_Z n / inject_Z d)%Q.

(** Modelled from the spec: [DataSet._calc_map_expectation_success] is not
    among the sources.  The "mostly" threshold policy: unset, success
    requires [unexpected_count == 0]; set to a fraction [m] of [[0,1]],
    success requires [success_count / nonnull_count >= m], a zero
    denominator counting as success; a value outside [[0,1]] is a
    [ConfigurationError]. *)
Definition spec_calc_map_expectation_success
    (success_count nonnull_count : sqlval) (mostly : option Q)
  : M (bool * option Q) :=
  sc ← lift_result (as_int success_count);
  nn ← lift_result (as_int nonnull_count);
  let percent_success := percent sc nn in
  match mostly with
  | None => mret (bool_decide (nn - sc = 0)%Z, percent_success)
  | Some m =>
      if Qle_bool 0 m && Qle_bool m 1 then
        match percent_success with
        | None => mret (true, percent_success)
        | Some p => mret (Qle_bool m p, percent_success)
        end
      else mraise (ConfigurationError "mostly must be a fraction between 0 and 1")
  end.

(** The limit a [result_format] configures, once resolved by
    [parse_result_format]. *)
Definition configured_partial_unexpected_count
    (h : gmap positive (gmap string pyval)) (result_format : pyarg) : option Z :=
  let '(h', l) := parse_result_format h result_format in
  match (h' !!! l) !! "partial_unexpected_count" with
  | Some (PyInt n) => Some n
  | _ => None
  end.

(** Modelled from the spec: [DataSet._format_column_map_output] is not among
    the sources.  It resolves [result_format] (a bare label is expanded with
    the default limit of 20), fills in the counts and percentages and
    truncates the sample of unexpected values to the configured limit; a
    [result_format] without an integer limit is a [ConfigurationError]. *)
Definition spec_format_column_map_output
    (result_format : pyarg) (success : bool)
    (element_count : sqlval) (_ : option unit)
    (nonnull_count : sqlval) (_ : option unit)
    (success_count : sqlval) (partial_unexpected_list : list sqlval)
    (_ : option unit) : M ExpectationResult :=
  fun h =>
    match configured_partial_unexpected_count h result_format with
    | Some n =>
        (ec ← lift_result (as_int element_count);
         nn ← lift_result (as_int nonnull_count);
         sc ← lift_result (as_int success_count);
         mret (mk_expectation_result success ec (ec - nn) (percent (ec - nn) ec)
                 (nn - sc) (percent (nn - sc) nn)
                 (firstn (Z.to_nat n) partial_unexpected_list)))
          (parse_result_format h result_format).1
    | None =>
        mk_outcome (Raise (ConfigurationError "malformed result_format"))
                   (parse_result_format h result_format).1 []
    end.

Definition SpecDataSet : DataSet ExpectationResult := {|
  _calc_map_expectation_success := spec_calc_map_expectation_success;
  _format_column_map_output := spec_format_column_map_output
|}.

(** ** A data set to evaluate on: one column, ten rows, two of them null *)

Definition ten_rows : sqltable :=
  mk_table ["x"]
    [[SqlInt 1]; [SqlInt 2]; [SqlNull]; [SqlInt 3]; [SqlInt 6];
     [SqlInt 4]; [SqlInt 7]; [SqlNull]; [SqlInt 5]; [SqlInt 8]].

Definition ten_rows_dataset : SqlAlchemyDataSet :=
  mk_dataset "t" (<["t" := ten_rows]> ∅) (<["result_format" := AStr "BASIC"]> ∅).

Definition one_to_five : list sqlval :=
  [SqlInt 1; SqlInt 2; SqlInt 3; SqlInt 4; SqlInt 5].

(** The four queries one evaluation of [expect_column_values_to_be_in_set]
    on column "x" of table "t" sends to the engine. *)
Definition ten_rows_queries : list query :=
  [ mk_query CountStar "t" (Some (IsNotNull "x")) None;
    mk_query CountStar "t" None None;
    mk_query (SelColumn "x") "t" (Some (NotIn "x" one_to_five)) (Some 20%nat);
    mk_query CountStar "t" (Some (NotIn "x" one_to_five)) None ].

(** A call that fails with a [ConfigurationError] without having sent the
    engine any query. *)
Definition fails_before_querying {A} (o : outcome A) : Prop :=
  (exists msg, o_result o = Raise (ConfigurationError msg)) /\ o_trace o = [].

(** A table with thirty rows, none of them in [one_to_five], and a store
    holding a [result_format] dict that configures a limit of 5. *)
Definition thirty_rows : sqltable :=
  mk_table ["x"] (List.map (fun i => [SqlInt (100 + Z.of_nat i)]) (seq 0 30)).

Definition thirty_rows_dataset : SqlAlchemyDataSet :=
  mk_dataset "t" (<["t" := thirty_rows]> ∅) (<["result_format" := AStr "BASIC"]> ∅).

Definition limit_five_store : gmap positive (gmap string pyval) :=
  <[1%positive := <["partial_unexpected_count" := PyInt 5]>
                    (<["result_format" := PyStr "BASIC"]> ∅)]> ∅.

(** ** numpy, in exact arithmetic

    Arrays of floats are lists of rationals: the model stands for finite
    floats and computes without rounding, so two computed points that are
    distinct here may round to the same float.  Where numpy would produce
    [nan] or [inf] out of finite inputs (a division by zero), which no
    rational stands for, the model has no value and stops with
    [FloatingPointError]; numpy itself warns and goes on. *)

Section Numpy.
Local Open Scope Q_scope.

Definition Qlt_bool (x y : Q) : bool := negb (Qle_bool y x).

Definition np_min (data : list Q) : result Q :=
  match data with
  | [] => Raise (ValueError "zero-size array to reduction operation minimum which has no identity")
  | x :: rest => Ok (fold_left Qmin rest x)
  end.

Definition np_max (data : list Q) : result Q :=
  match data with
  | [] => Raise (ValueError "zero-size array to reduction operation maximum which has no identity")
  | x :: rest => Ok (fold_left Qmax rest x)
  end.

(** [np.linspace(start, stop, num)]: [num] evenly spaced points, the
    first [start] and, for [num > 1], the last [stop]. *)
Definition linspace_point (start stop : Q) (num : Z) (i : nat) : Q :=
  start + inject_Z (Z.of_nat i) * ((stop - start) / inject_Z (num - 1)).

Definition np_linspace (start stop : Q) (num : Z) : result (list Q) :=
  if (num <? 0)%Z
  then Raise (ValueError "Number of samples must be non-negative")
  else Ok (List.map (linspace_point start stop num) (seq 0 (Z.to_nat num))).

(** [np.diff(a)]: the differences of consecutive elements. *)
Fixpoint np_diff (a : list Q) : list Q :=
  match a with
  | [] => []
  | x :: rest =>
      match rest with
      | [] => []
      | y :: _ => (y - x) :: np_diff rest
      end
  end.

Definition np_sum (a : list Q) : Q := fold_right Qplus 0 a.

(** [np.allclose(a, b)] on scalars, with numpy's default tolerances
    [rtol=1e-05] and [atol=1e-08]. *)
Definition np_allclose (a b : Q) : bool :=
  Qle_bool (Qabs (a - b)) ((1 # 100000000) + (1 # 100000) * Qabs b).

(** The bin edges of an array [bins] must not decrease. *)
Fixpoint monotonic (edges : list Q) : bool :=
  match edges with
  | [] => true
  | x :: rest =>
      match rest with
      | [] => true
      | y :: _ => Qle_bool x y && monotonic rest
      end
  end.

Definition count_if (f : Q -> bool) (data : list Q) : nat :=
  length (List.filter f data).

(** The counts of [np.histogram]: every bin is half-open, [[a, b)],
    except the last one, which is closed, [[a, b]]. *)
Fixpoint histogram_counts (data edges : list Q) : list nat :=
  match edges with
  | [] => []
  | a :: rest =>
      match rest with
      | [] => []
      | b :: rest' =>
          (match rest' with
           | [] => count_if (fun x => Qle_bool a x && Qle_bool x b) data
           | _ :: _ => count_if (fun x => Qle_bool a x && Qlt_bool x b) data
           end) :: histogram_counts data rest
      end
  end.

(** [counts / d], elementwise true division.  Dividing counts by zero gives
    [nan] in numpy (this happens only for an empty sample, in 'auto' mode):
    the one case the rationals cannot follow. *)
Definition divide_counts (counts : list nat) (d : nat) : result (list Q) :=
  match d, counts with
  | O, _ :: _ => Raise (FloatingPointError "division by zero")
  | _, _ => Ok (List.map (fun c => inject_Z (Z.of_nat c) / inject_Z (Z.of_nat d)) counts)
  end.

(** Sorting, for percentiles. *)
Fixpoint insert_sorted (x : Q) (l : list Q) : list Q :=
  match l with
  | [] => [x]
  | y :: rest => if Qle_bool x y then x :: l else y :: insert_sorted x rest
  end.

Definition np_sort (a : list Q) : list Q := fold_right insert_sorted [] a.

(** [np.percentile(a, q)] for one [q], with linear interpolation between
    the two nearest ranks of the sorted sample. *)
Definition percentile_of_sorted (s : list Q) (q : Q) : Q :=
  let idx := q / 100 * inject_Z (Z.of_nat (length s - 1)) in
  let lo := Z.to_nat (Qfloor idx) in
  let x_lo := nth lo s (List.last s 0) in
  let x_hi := nth (S lo) s (List.last s 0) in
  x_lo + (idx - inject_Z (Z.of_nat lo)) * (x_hi - x_lo).

Definition np_percentile (a : list Q) (qs : list Q) : result (list Q) :=
  match a with
  | [] => Raise (IndexError "cannot do a non-empty take from an empty axes.")
  | _ :: _ =>
      if forallb (fun q => Qle_bool 0 q && Qle_bool q 100) qs
      then Ok (List.map (percentile_of_sorted (np_sort a)) qs)
      else Raise (ValueError "Percentiles must be in the range [0, 100]")
  end.
End Numpy.

(** ** Partition objects (util.py) *)

(** Bin edges may be infinite. *)
Inductive edge : Type :=
  | NegInf
  | Fin (q : Q)
  | PosInf.

Record continuous_partition : Type := mk_continuous {
  cp_bins : list edge;
  cp_weights : list Q
}.

(** The [bins] argument of [np.histogram]: an array of edges, or the name of
    an estimator. *)
Inductive bins_arg : Type :=
  | BinsArray (edges : list Q)
  | BinsAuto.

Section ContinuousPartition.
Local Open Scope Q_scope.

(** numpy's ['auto'] choice of bin edges (the larger of the Sturges and
    Freedman-Diaconis estimates), which is not rational arithmetic. *)
Variable histogram_bin_edges_auto : list Q -> list Q.

(** [np.histogram(data, bins, density=False)] *)
Definition np_histogram (data : list Q) (bins : bins_arg)
  : result (list nat * list Q) :=
  match bins with
  | BinsArray edges =>
      if monotonic edges then Ok (histogram_counts data edges, edges)
      else Raise (ValueError "bins must increase monotonically.")
  | BinsAuto =>
      let edges := histogram_bin_edges_auto data in
      Ok (histogram_counts data edges, edges)
  end.

(** util.py, [continuous_partition_data] *)
Definition continuous_partition_data (data : list Q) (bins : string) (n_bins : Z)
  : result continuous_partition :=
  rbind
    (if String.eqb bins "uniform" then
       rbind (np_min data) (fun start =>
       rbind (np_max data) (fun stop =>
       rbind (np_linspace start stop (n_bins + 1)) (fun e => Ok (BinsArray e))))
     else if String.eqb bins "ntile" then
       rbind (np_linspace 0 100 (n_bins + 1)) (fun qs =>
       rbind (np_percentile data qs) (fun e => Ok (BinsArray e)))
     else if negb (String.eqb bins "auto") then
       Raise (ValueError "Invalid parameter for bins argument")
     else Ok BinsAuto)
    (fun bins =>
       rbind (np_histogram data bins) (fun '(hist, bin_edges) =>
       rbind (divide_counts hist (length data)) (fun weights =>
       Ok (mk_continuous (List.map Fin bin_edges) weights)))).
End ContinuousPartition.

Record categorical_partition (V : Type) : Type := mk_categorical {
  cat_values : list V;
  cat_weights : list Q
}.
Arguments mk_categorical {V} _ _.
Arguments cat_values {V} _.
Arguments cat_weights {V} _.

Section CategoricalPartition.
Context {V : Type} `{EqDecision V}.

(** A sample is a list of values and nulls. *)
Fixpoint dropna (data : list (option V)) : list V :=
  match data with
  | [] => []
  | None :: rest => dropna rest
  | Some v :: rest => v :: dropna rest
  end.

(** The distinct values, in the order of their first occurrence. *)
Fixpoint unique (l : list V) : list V :=
  match l with
  | [] => []
  | x :: rest => x :: List.filter (fun y => negb (bool_decide (y = x))) (unique rest)
  end.

Definition occurrences (x : V) (l : list V) : nat :=
  length (List.filter (fun y => bool_decide (y = x)) l).

(** Descending by count; among equal counts the value met first comes
    first. *)
Fixpoint insert_desc (p : V * nat) (l : list (V * nat)) : list (V * nat) :=
  match l with
  | [] => [p]
  | q :: rest => if (q.2 <=? p.2)%nat then p :: l else q :: insert_desc p rest
  end.

(** [series.value_counts(dropna=True)]: index and values. *)
Definition value_counts (data : list (option V)) : list (V * nat) :=
  let present := dropna data in
  fold_right insert_desc []
    (List.map (fun v => (v, occurrences v present)) (unique present)).

(** util.py, [categorical_partition_data] *)
Definition categorical_partition_data (data : list (option V))
  : result (categorical_partition V) :=
  let series := data in
  let value_counts := value_counts series in
  let null_indexes := List.map (fun x => bool_decide (x = None)) series in
  let nonnull_count :=
    length (List.filter (fun b => bool_decide (b = false)) null_indexes) in
  rbind (divide_counts (List.map snd value_counts) nonnull_count) (fun weights =>
  Ok (mk_categorical (List.map fst value_counts) weights)).
End CategoricalPartition.

(** What [scipy.stats.gaussian_kde] is used for: the bandwidth factor and
    the cumulative distribution [x -> integrate_box_1d(-inf, x)]. *)
Record gaussian_kde_obj : Type := mk_kde {
  covariance_factor : Q;
  integrate_box_1d_from_neg_inf : Q -> Q
}.

Section KdePartition.
Local Open Scope Q_scope.

(** Fitting the estimate is scipy's business (and not rational
    arithmetic); it may fail, on fewer than two points for one. *)
Variable gaussian_kde : list Q -> result gaussian_kde_obj.

Definition first_item (a : list Q) : result Q :=
  match a with
  | [] => Raise (IndexError "list index out of range")
  | x :: _ => Ok x
  end.

Definition last_item (a : list Q) : result Q :=
  match a with
  | [] => Raise (IndexError "list index out of range")
  | x :: rest => Ok (List.last rest x)
  end.

(** util.py, [kde_partition_data] *)
Definition kde_partition_data (data : list Q) (estimate_tails : bool)
  : result continuous_partition :=
  rbind (gaussian_kde data) (fun kde =>
  rbind (np_min data) (fun mn =>
  rbind (np_max data) (fun mx =>
  let f := covariance_factor kde in
  rbind (np_linspace (mn - f / 2) (mx + f / 2) (Qfloor ((mx - mn) / f + 1)))
    (fun evaluation_bins =>
  let cdf_vals := List.map (integrate_box_1d_from_neg_inf kde) evaluation_bins in
  let evaluation_weights := np_diff cdf_vals in
  let bins :=
    if estimate_tails
    then ([Fin (mn - (15 # 10) * f)] ++ List.map Fin evaluation_bins
            ++ [Fin (mx + (15 # 10) * f)])%list
    else ([NegInf] ++ List.map Fin evaluation_bins ++ [PosInf])%list in
  rbind (first_item cdf_vals) (fun cdf_first =>
  rbind (last_item cdf_vals) (fun cdf_last =>
  let weights := ([cdf_first] ++ evaluation_weights ++ [1 - cdf_last])%list in
  Ok (mk_continuous bins weights))))))).
End KdePartition.

(** ** Partition validators (util.py) *)

Section Validators.
Local Open Scope Q_scope.

(** [len(x)] *)
Definition py_len (x : pyval) : result nat :=
  match x with
  | PyList l | PyTuple l | PySet l | NpArray l | PdIndex l => Ok (length l)
  | PyDict items => Ok (length items)
  | PyStr s => Ok (String.length s)
  | _ => Raise (TypeError "object has no len()")
  end.

Definition as_float (x : pyval) : result Q :=
  match x with
  | PyInt z | NpInt64 z => Ok (inject_Z z)
  | PyFloat q | NpFloat64 q => Ok q
  | PyBool b => Ok (if b then 1 else 0)
  | _ => Raise (TypeError "unsupported operand type(s)")
  end.

(** [np.asarray(x)] for a sequence of integers and floats. *)
Definition as_float_array (x : pyval) : result (list Q) :=
  match x with
  | PyList l | PyTuple l | NpArray l | PdIndex l => mapM as_float l
  | _ => Raise (TypeError "unsupported operand type(s)")
  end.

(** util.py, [is_valid_continuous_partition_object]; Python's [and]
    evaluates its right operand only when the left one is true. *)
Definition is_valid_continuous_partition_object
    (partition_object : option (gmap string pyval)) : result bool :=
  match partition_object with
  | None => Ok false
  | Some d =>
      match d !! "weights", d !! "bins" with
      | Some weights, Some bins =>
          rbind (py_len bins) (fun len_bins =>
          rbind (py_len weights) (fun len_weights =>
          if (len_bins =? len_weights + 1)%nat then
            rbind (as_float_array bins) (fun b =>
            if forallb (fun d => Qlt_bool 0 d) (np_diff b) then
              rbind (as_float_array weights) (fun w =>
              if np_allclose (np_sum w) 1 then Ok true else Ok false)
            else Ok false)
          else Ok false))
      | _, _ => Ok false
      end
  end.

(** The same, in the words of the specification, for bins [b] and
    weights [w]. *)
Definition valid_continuous (b w : list Q) : Prop :=
  length b = S (length w) /\
  Sorted Qlt b /\
  Qabs (np_sum w - 1) <= (1 # 100000000) + (1 # 100000).
End Validators.

(** An estimate to evaluate on: bandwidth factor 1/2 and the cumulative
    distribution of the uniform law on [[-1, 4]]. *)
Definition uniform_kde (data : list Q) : result gaussian_kde_obj :=
  Ok (mk_kde (1 # 2) (fun x => Qmax 0 (Qmin 1 ((x + 1) / 5)))%Q).

(** ** The other validators of util.py *)

Section PartitionValidators.
Local Open Scope Q_scope.

(** util.py, [is_valid_categorical_partition_object] *)
Definition is_valid_categorical_partition_object
    (partition_object : option (gmap string pyval)) : result bool :=
  match partition_object with
  | None => Ok false
  | Some d =>
      match d !! "weights", d !! "values" with
      | Some weights, Some values =>
          rbind (py_len values) (fun len_values =>
          rbind (py_len weights) (fun len_weights =>
          if (len_values =? len_weights)%nat then
            rbind (as_float_array weights) (fun w =>
            if np_allclose (np_sum w) 1 then Ok true else Ok false)
          else Ok false))
      | _, _ => Ok false
      end
  end.

(** util.py, [is_valid_partition_object]; Python's [or] asks the second
    validator only when the first one answered [False]. *)
Definition is_valid_partition_object
    (partition_object : option (gmap string pyval)) : result bool :=
  rbind (is_valid_continuous_partition_object partition_object) (fun c =>
  if c then Ok true
  else
    rbind (is_valid_categorical_partition_object partition_object) (fun k =>
    if k then Ok true else Ok false)).
End PartitionValidators.

(** The dict [{"bins": bins, "weights": weights}] the continuous partition
    functions return, with its two arrays of floats. *)
Definition continuous_partition_object (bins weights : list Q)
  : gmap string pyval :=
  <["bins" := NpArray (List.map NpFloat64 bins)]>
    (<["weights" := NpArray (List.map NpFloat64 weights)]> ∅).

(** The dict [{"values": values, "weights": weights}] that
    [categorical_partition_data] returns: a list and an array of floats. *)
Definition categorical_partition_object (values : list pyval) (weights : list Q)
  : gmap string pyval :=
  <["values" := PyList values]>
    (<["weights" := NpArray (List.map NpFloat64 weights)]> ∅).

(** ** DotDict (util.py): dot notation access to dictionary attributes

    A [DotDict] is a dict; the methods below take its items and return the
    items after the call. *)

Module DotDict.
Section Attributes.
(** What the normal attribute lookup finds on the class and its bases
    ([keys], [get], [__class__], ...): Python falls back on [__getattr__]
    only when this lookup fails. *)
Variable class_attribute : string -> option pyval.

(** [__getattr__(self, attr)]: [return self.get(attr)] *)
Definition __getattr__ (self : gmap string pyval) (attr : string) : pyval :=
  default PyNone (self !! attr).

(** [__setattr__ = dict.__setitem__] *)
Definition __setattr__ (self : gmap string pyval) (attr : string) (value : pyval)
  : gmap string pyval :=
  <[attr := value]> self.

(** [__delattr__ = dict.__delitem__] *)
Definition __delattr__ (self : gmap string pyval) (attr : string)
  : result (gmap string pyval) :=
  match self !! attr with
  | Some _ => Ok (delete attr self)
  | None => Raise (KeyError attr)
  end.

(** [__dir__(self)]: [return self.keys()] *)
Definition __dir__ (self : gmap string pyval) : gset string := dom self.

(** The expression [self.attr]. *)
Definition getattr (self : gmap string pyval) (attr : string) : pyval :=
  match class_attribute attr with
  | Some a => a
  | None => __getattr__ self attr
  end.
End Attributes.
End DotDict.

(** ** data_context *)

Inductive DataContext : Type :=
  | SqlAlchemyDataContext (engine : pyval)
  | PandasCSVDataContext (directory : pyval).

(** Binding the positional and the keyword arguments of a call of [connect]
    to its parameters [self, connection_string]. *)
Definition connect_arguments (args : list pyval) (kwargs : list (string * pyval))
  : result pyval :=
  match args, kwargs with
  | [connection_string], [] => Ok connection_string
  | [], [(name, connection_string)] =>
      if String.eqb name "connection_string" then Ok connection_string
      else Raise (TypeError "connect() got an unexpected keyword argument")
  | [], [] =>
      Raise (TypeError "connect() missing 1 required positional argument: 'connection_string'")
  | [], _ :: _ :: _ =>
      Raise (TypeError "connect() got an unexpected keyword argument")
  | [_], _ :: _ =>
      Raise (TypeError "connect() got multiple values or an unexpected keyword argument")
  | _ :: _ :: _, _ =>
      Raise (TypeError "connect() takes 2 positional arguments but more were given")
  end.

Section DataContexts.
(** [sqlalchemy.create_engine] *)
Variable create_engine : pyval -> result pyval.

(** [SqlAlchemyDataContext.connect] *)
Definition SqlAlchemyDataContext_connect
    (args : list pyval) (kwargs : list (string * pyval)) : result DataContext :=
  rbind (connect_arguments args kwargs) (fun connection_string =>
  rbind (create_engine connection_string) (fun engine =>
  Ok (SqlAlchemyDataContext engine))).

(** [PandasCSVDataContext.connect] *)
Definition PandasCSVDataContext_connect
    (args : list pyval) (kwargs : list (string * pyval)) : result DataContext :=
  rbind (connect_arguments args kwargs) (fun connection_string =>
  Ok (PandasCSVDataContext connection_string)).

(** [DataContext.__init__]: it hands all its positional and keyword
    arguments on to the [connect] of the class. *)
Definition DataContext_init
    (connect : list pyval -> list (string * pyval) -> result DataContext)
    (args : list pyval) (kwargs : list (string * pyval)) : result DataContext :=
  connect args kwargs.

(** data_context/__init__.py, [get_data_context]: the constructors are
    called as [Class(args, kwargs)], that is with the tuple and the dict as
    two positional arguments. *)
Definition get_data_context (context_type : string)
    (args : list pyval) (kwargs : list (string * pyval)) : result DataContext :=
  if String.eqb context_type "sqlalchemy" then
    DataContext_init SqlAlchemyDataContext_connect [PyTuple args; PyDict kwargs] []
  else if String.eqb context_type "pandas_directory" then
    DataContext_init PandasCSVDataContext_connect [PyTuple args; PyDict kwargs] []
  else Raise (ValueError "Unknown data context.").
End DataContexts.

(** ** DocInherit (util.py): docstrings inherited along the MRO

    Of a class only its [__dict__] matters, and of the attribute found
    there under a name only its [__doc__] ([None] or a string). *)

Module DocInherit.
Definition newline : string := String (ascii_of_nat 10) "".

(** [__get__(self, obj, cls)], the [__doc__] of the function it returns;
    [name] and [mthd_doc] are [self.name] and [self.mthd_doc], [mro] is
    [cls.mro()]. *)
Definition __get__ (name : string) (mthd_doc : option string)
    (mro : list (gmap string (option string))) : string :=
  let doc := match mthd_doc with Some d => d | None => "" end in
  fold_left
    (fun doc parent =>
       match parent !! name with
       | None => doc
       | Some None => doc
       | Some (Some parent_doc) => doc ++ newline ++ parent_doc
       end)
    mro doc.
End DocInherit.

(** What the conversion of a value is, in the words of the specification
    ("converted recursively"): a string, integer, float, boolean or None is
    itself; a [np.int64] is the integer of the same value; a date or time
    is its [str()]; a dict has the same keys in the same order with the
    converted values; a list, tuple, set, array or index is the list of its
    converted elements. *)
#[local] Unset Elimination Schemes.
Inductive json_image : pyval -> pyval -> Prop :=
  | image_none : json_image PyNone PyNone
  | image_bool b : json_image (PyBool b) (PyBool b)
  | image_int z : json_image (PyInt z) (PyInt z)
  | image_float q : json_image (PyFloat q) (PyFloat q)
  | image_str s : json_image (PyStr s) (PyStr s)
  | image_float64 q : json_image (NpFloat64 q) (NpFloat64 q)
  | image_int64 z : json_image (NpInt64 z) (PyInt z)
  | image_datetime s : json_image (PyDatetime s) (PyStr s)
  | image_date s : json_image (PyDate s) (PyStr s)
  | image_dict items items' :
      Forall2 (fun kv kv' : string * pyval =>
                 kv.1 = kv'.1 /\ json_image kv.2 kv'.2) items items' ->
      json_image (PyDict items) (PyDict items')
  | image_list l l' : Forall2 json_image l l' -> json_image (PyList l) (PyList l')
  | image_tuple l l' : Forall2 json_image l l' -> json_image (PyTuple l) (PyList l')
  | image_set l l' : Forall2 json_image l l' -> json_image (PySet l) (PyList l')
  | image_array l l' : Forall2 json_image l l' -> json_image (NpArray l) (PyList l')
  | image_index l l' : Forall2 json_image l l' -> json_image (PdIndex l) (PyList l').
#[local] Set Elimination Schemes.

(** [np.int32(3)]: a numpy scalar, but of neither class the function tests
    for ([np.int64], [np.float64]), so an object of another class;
    its [str()] is "3" and the name of its type is "int32". *)
Definition np_int32_three : pyval := PyOther "3" "int32".

(** What a conversion outcome has to satisfy, for the value it came from. *)
Definition conversion_spec (v : pyval) (r : result pyval) : Prop :=
  match r with
  | Ok w => json_convertible v = true /\ json_native w = true
  | Raise e =>
      json_convertible v = false /\
      exists str type_name,
        subvalue (PyOther str type_name) v /\
        e = TypeError (cannot_be_serialized str type_name)
  end.

(** * Properties *)

(** ** Properties of [parse_result_format] *)

Lemma parse_result_format_string_fresh (h : heap) (s : string) :
  let '(h', l) := parse_result_format h (AStr s) in
  h !! l = None /\ h' !! l = Some (new_result_format s) /\
  forall l', l' <> l -> h' !! l' = h !! l'.
Proof.
  simpl. split; [|split].
  - apply not_elem_of_dom, is_fresh.
  - apply lookup_insert_eq.
  - intros l' Hl'. by apply lookup_insert_ne.
Qed.

(** C10: on a mapping, [parse_result_format] returns the very object it was
    given; a 'partial_unexpected_count' already present keeps its value and
    the store is untouched; when the key is absent it is set to 20 in that
    same object, every other key of it and every other object staying as
    they were. *)
Theorem parse_result_format_mapping_in_place (h : heap) (l : loc) :
  let d := h !!! l in
  let '(h', l') := parse_result_format h (ARef l) in
  l' = l /\
  (forall v, d !! "partial_unexpected_count" = Some v ->
             h' = h /\ (h' !!! l) !! "partial_unexpected_count" = Some v) /\
  (d !! "partial_unexpected_count" = None ->
             (h' !!! l) !! "partial_unexpected_count" = Some (PyInt 20)) /\
  (forall k, k <> "partial_unexpected_count" -> (h' !!! l) !! k = d !! k) /\
  (forall l2, l2 <> l -> h' !! l2 = h !! l2).
Proof.
  unfold parse_result_format.
  destruct ((h !!! l) !! "partial_unexpected_count") as [v0|] eqn:E.
  - split; [done|]. split; [|split; [done|split; done]].
    intros v Hv. by simplify_eq.
  - split; [done|]. split; [done|]. split; [|split].
    + intros _. rewrite lookup_total_insert_eq. apply lookup_insert_eq.
    + intros k Hk. rewrite lookup_total_insert_eq. by apply lookup_insert_ne.
    + intros l2 Hl2. by apply lookup_insert_ne.
Qed.

(** ** Properties of [recursively_convert_to_json_serializable] *)


Lemma mapM_conversion_spec (l : list pyval) :
  Forall (fun v => conversion_spec v (recursively_convert_to_json_serializable v)) l ->
  match mapM recursively_convert_to_json_serializable l with
  | Ok ws => forallb json_convertible l = true /\ forallb json_native ws = true
  | Raise e =>
      forallb json_convertible l = false /\
      exists v str type_name,
        In v l /\ subvalue (PyOther str type_name) v /\
        e = TypeError (cannot_be_serialized str type_name)
  end.
Proof.
  induction 1 as [|v l Hv Hl IH]; simpl; [done|].
  unfold conversion_spec in Hv.
  destruct (recursively_convert_to_json_serializable v) as [w|e]; simpl.
  - destruct Hv as [-> Hw].
    destruct (mapM recursively_convert_to_json_serializable l) as [ws|e]; simpl.
    + destruct IH as [-> Hws]. by rewrite Hw, Hws.
    + destruct IH as [-> (v' & s & t & Hin & Hsub & ->)].
      split; [done|]. exists v', s, t. auto.
  - destruct Hv as [-> (s & t & Hsub & ->)].
    split; [done|]. exists v, s, t. auto.
Qed.

Lemma mapM_items_conversion_spec (items : list (string * pyval)) :
  Forall (fun kv : string * pyval =>
            conversion_spec kv.2 (recursively_convert_to_json_serializable kv.2)) items ->
  match mapM (fun kv : string * pyval =>
                let '(key, val) := kv in
                rbind (recursively_convert_to_json_serializable val)
                      (fun v => Ok (key, v))) items with
  | Ok ws =>
      forallb (fun kv : string * pyval => json_convertible kv.2) items = true /\
      forallb (fun kv : string * pyval => json_native kv.2) ws = true
  | Raise e =>
      forallb (fun kv : string * pyval => json_convertible kv.2) items = false /\
      exists k v str type_name,
        In (k, v) items /\ subvalue (PyOther str type_name) v /\
        e = TypeError (cannot_be_serialized str type_name)
  end.
Proof.
  induction 1 as [|[k v] l Hv Hl IH]; simpl; [done|].
  unfold conversion_spec in Hv. simpl in Hv.
  destruct (recursively_convert_to_json_serializable v) as [w|e]; simpl.
  - destruct Hv as [-> Hw].
    destruct (mapM _ l) as [ws|e]; simpl.
    + destruct IH as [-> Hws]. by rewrite Hw, Hws.
    + destruct IH as [-> (k' & v' & s & t & Hin & Hsub & ->)].
      split; [done|]. exists k', v', s, t. auto.
  - destruct Hv as [-> (s & t & Hsub & ->)].
    split; [done|]. exists k, v, s, t. auto.
Qed.

(** Success and failure of the conversion, by induction on the value. *)
Lemma conversion_spec_holds (test_obj : pyval) :
  conversion_spec test_obj (recursively_convert_to_json_serializable test_obj).
Proof.
  induction test_obj using pyval_ind; try (simpl; done).
  - apply mapM_items_conversion_spec in H. simpl.
    destruct (mapM _ items) as [ws|e]; simpl; [done|].
    destruct H as [-> (k & v & s & t & Hin & Hsub & ->)].
    split; [done|]. exists s, t. split; [|done]. by eapply sub_dict.
  - apply mapM_conversion_spec in H. simpl.
    destruct (mapM _ l) as [ws|e]; simpl; [done|].
    destruct H as [-> (v & s & t & Hin & Hsub & ->)].
    split; [done|]. exists s, t. split; [|done]. by eapply sub_list.
  - apply mapM_conversion_spec in H. simpl.
    destruct (mapM _ l) as [ws|e]; simpl; [done|].
    destruct H as [-> (v & s & t & Hin & Hsub & ->)].
    split; [done|]. exists s, t. split; [|done]. by eapply sub_tuple.
  - apply mapM_conversion_spec in H. simpl.
    destruct (mapM _ l) as [ws|e]; simpl; [done|].
    destruct H as [-> (v & s & t & Hin & Hsub & ->)].
    split; [done|]. exists s, t. split; [|done]. by eapply sub_set.
  - apply mapM_conversion_spec in H. simpl.
    destruct (mapM _ l) as [ws|e]; simpl; [done|].
    destruct H as [-> (v & s & t & Hin & Hsub & ->)].
    split; [done|]. exists s, t. split; [|done]. by eapply sub_array.
  - apply mapM_conversion_spec in H. simpl.
    destruct (mapM _ l) as [ws|e]; simpl; [done|].
    destruct H as [-> (v & s & t & Hin & Hsub & ->)].
    split; [done|]. exists s, t. split; [|done]. by eapply sub_index.
  - simpl. split; [done|]. exists s, t. split; [constructor|done].
Qed.

(** ** Properties of the column-map expectation wrapper *)

Example ten_rows_basic :
  inner_wrapper (DataSet0:=SpecDataSet) expect_column_values_to_be_in_set
    ten_rows_dataset "x" None None one_to_five ∅
  = mk_outcome (Ok (mk_expectation_result false 10 8 (Some (8 # 10)) 3 (Some (3 # 2))
                      [SqlInt 6; SqlInt 7; SqlInt 8]))
               (<[1%positive := new_result_format "BASIC"]> ∅) ten_rows_queries.
Proof. vm_compute. reflexivity. Qed.

Lemma firstn_length_le {A} (k : nat) (l : list A) : (length (firstn k l) <= k)%nat.
Proof. rewrite length_firstn. lia. Qed.

Lemma execute_limit_length db q k rows :
  execute db (limit q k) = Ok rows -> (length rows <= k)%nat.
Proof.
  unfold execute, limit; simpl.
  destruct (db !! q_from q) as [t|]; [|done].
  destruct (where_rows t (q_where q)) as [rs|]; simpl; [|done].
  destruct (q_select q) as [|c]; simpl.
  - intros [= <-]. apply firstn_length_le.
  - destruct (resolve_column t c) as [i|]; simpl; [|done].
    intros [= <-]. apply firstn_length_le.
Qed.

(** What the query named [null_count_query] counts: the rows whose cell is
    not null. *)
Lemma execute_null_count_query self column t i :
  engine self !! table_name self = Some t ->
  column_index column (t_columns t) = Some i ->
  execute (engine self) (null_count_query self column)
  = Ok [SqlInt (Z.of_nat (length
          (List.filter (fun row => negb (bool_decide (cell i row = SqlNull)))
                       (t_rows t))))].
Proof.
  intros Ht Hi. unfold execute, null_count_query; simpl.
  rewrite Ht; simpl. unfold resolve_column. by rewrite Hi.
Qed.

(** C1: on a table of ten rows of which two are null in the column, the
    wrapper hands [nonnull_count = 2] (and [success_count = -1]) to the
    methods of the base class, whatever these are: the query it names
    [null_count_query] counts the rows that are NOT null. *)
Theorem inner_wrapper_ten_rows_nonnull_count
    (Ret : Type) (B : DataSet Ret) (mostly : option Q)
    (h : gmap positive (gmap string pyval)) :
  inner_wrapper expect_column_values_to_be_in_set
    ten_rows_dataset "x" mostly (Some (AStr "BASIC")) one_to_five h
  = let o :=
      ('(success, _) ← _calc_map_expectation_success (SqlInt (-1)) (SqlInt 2) mostly;
       _format_column_map_output (AStr "BASIC") success
         (SqlInt 10) None (SqlInt 2) None (SqlInt (-1))
         [SqlInt 6; SqlInt 7; SqlInt 8] None) h in
    mk_outcome (o_result o) (o_heap o) (ten_rows_queries ++ o_trace o).
Proof.
  vm_compute.
  destruct (_calc_map_expectation_success (SqlInt (-1)) (SqlInt 2) mostly h)
    as [[[s p]|e] h1 t1]; reflexivity.
Qed.

(** C2, as the code has it: whatever [mostly] is, and whatever the methods
    of the base class do with it, the engine is sent the null-count query
    first, and the row-count query next when the first one was answered. *)
Theorem inner_wrapper_queries_first
    (Ret : Type) (B : DataSet Ret) (Args : Type)
    (func : SqlAlchemyDataSet -> string -> Args -> M func_result)
    (self : SqlAlchemyDataSet) (column : string) (mostly : option Q)
    (rf : pyarg) (args : Args) (h : gmap positive (gmap string pyval)) :
  exists rest,
    o_trace (inner_wrapper func self column mostly (Some rf) args h)
    = null_count_query self column ::
      match execute (engine self) (null_count_query self column) with
      | Ok _ => count_query self :: rest
      | Raise _ => []
      end.
Proof.
  unfold inner_wrapper, mbind, M_bind, fmap, M_fmap, mret, M_ret, engine_execute.
  simpl.
  destruct (execute (engine self) (null_count_query self column)) as [r1|e1];
    simpl; [|by exists []].
  destruct (execute (engine self) (count_query self)) as [r2|e2];
    simpl; [|by exists []].
  eexists. reflexivity.
Qed.

(** C2, as stated: with [mostly = 1.5] the call does end in a
    [ConfigurationError], but the four queries were executed before it. *)
Example mostly_out_of_range_ten_rows :
  let o := inner_wrapper (DataSet0:=SpecDataSet) expect_column_values_to_be_in_set
             ten_rows_dataset "x" (Some (3 # 2)) (Some (AStr "BASIC")) one_to_five ∅ in
  o_result o = Raise (ConfigurationError "mostly must be a fraction between 0 and 1")
  /\ o_trace o = ten_rows_queries.
Proof. vm_compute. split; reflexivity. Qed.

Lemma mostly_out_of_range_queries_backend :
  ~ fails_before_querying
      (inner_wrapper (DataSet0:=SpecDataSet) expect_column_values_to_be_in_set
         ten_rows_dataset "x" (Some (3 # 2)) (Some (AStr "BASIC")) one_to_five ∅).
Proof. intros [_ H]. vm_compute in H. discriminate H. Qed.

(** Inversion of a successful sequence: both parts succeeded, the second
    one from the store the first one left. *)
Lemma bind_ok_inv {A B} (c : M A) (k : A -> M B) h b :
  o_result ((c ≫= k) h) = Ok b ->
  exists a, o_result (c h) = Ok a /\ o_result (k a (o_heap (c h))) = Ok b.
Proof.
  unfold mbind, M_bind; simpl.
  destruct (o_result (c h)) as [a|e]; simpl; [|done].
  intros Hb. by exists a.
Qed.

Lemma scalar_engine_execute_heap db q h :
  o_heap ((scalar <$> engine_execute db q) h) = h.
Proof. reflexivity. Qed.

Lemma lift_result_heap {A} (r : result A) h : o_heap (lift_result r h) = h.
Proof. reflexivity. Qed.

(** The sample the wrapped expectation returns has at most twenty values. *)
Lemma expect_column_values_to_be_in_set_sample_bounded self column values_set h fr :
  o_result (expect_column_values_to_be_in_set self column values_set h) = Ok fr ->
  (length (fr_partial_unexpected_list fr) <= unexpected_count_limit)%nat.
Proof.
  unfold expect_column_values_to_be_in_set, mbind, M_bind, fmap, M_fmap,
    mret, M_ret, engine_execute; simpl.
  destruct (execute (engine self) (limit _ _)) as [rows|e] eqn:E1; simpl; [|done].
  destruct (execute (engine self) (where_ _ _)) as [cnt|e] eqn:E2; simpl; [|done].
  intros [= <-]; simpl. by eapply execute_limit_length.
Qed.

Lemma expect_column_values_to_be_in_set_heap self column values_set h :
  o_heap (expect_column_values_to_be_in_set self column values_set h) = h.
Proof.
  unfold expect_column_values_to_be_in_set, mbind, M_bind, fmap, M_fmap,
    mret, M_ret, engine_execute; simpl.
  destruct (execute (engine self) (limit _ _)) as [rows|e]; simpl; [|done].
  by destruct (execute (engine self) (where_ _ _)) as [cnt|e].
Qed.

Lemma spec_calc_map_expectation_success_heap sc nn mostly h :
  o_heap (spec_calc_map_expectation_success sc nn mostly h) = h.
Proof.
  unfold spec_calc_map_expectation_success, mbind, M_bind, lift_result,
    mret, M_ret, mraise; simpl.
  destruct (as_int sc) as [a|]; simpl; [|done].
  destruct (as_int nn) as [b|]; simpl; [|done].
  destruct mostly as [m|]; [|done].
  destruct (Qle_bool 0 m && Qle_bool m 1); [|done].
  by destruct (percent a b).
Qed.

Lemma spec_format_column_map_output_sample rf success ec nn sc pl h n r :
  configured_partial_unexpected_count h rf = Some n ->
  o_result (spec_format_column_map_output rf success ec None nn None sc pl None h) = Ok r ->
  er_partial_unexpected_list r = firstn (Z.to_nat n) pl.
Proof.
  unfold spec_format_column_map_output. intros ->.
  unfold mbind, M_bind, lift_result, mret, M_ret; simpl.
  destruct (as_int ec) as [a|]; simpl; [|done].
  destruct (as_int nn) as [b|]; simpl; [|done].
  destruct (as_int sc) as [c|]; simpl; [|done].
  by intros [= <-].
Qed.

(** C6: in the result of a column-map expectation, [partial_unexpected_list]
    is no longer than the [partial_unexpected_count] the [result_format]
    configures (20 for a bare label), and never longer than 20, however many
    rows violate the predicate. *)
Theorem partial_unexpected_list_bounded
    (self : SqlAlchemyDataSet) (column : string) (mostly : option Q)
    (rf : pyarg) (values_set : list sqlval)
    (h : gmap positive (gmap string pyval)) (n : Z) (r : ExpectationResult) :
  configured_partial_unexpected_count h rf = Some n ->
  (0 <= n)%Z ->
  o_result (inner_wrapper (DataSet0:=SpecDataSet) expect_column_values_to_be_in_set
              self column mostly (Some rf) values_set h) = Ok r ->
  (Z.of_nat (length (er_partial_unexpected_list r)) <= n)%Z /\
  (length (er_partial_unexpected_list r) <= 20)%nat.
Proof.
  intros Hn Hpos Hr. unfold inner_wrapper in Hr.
  apply bind_ok_inv in Hr as (rf' & Hrf & Hr). injection Hrf as <-.
  simpl in Hr.
  apply bind_ok_inv in Hr as (null_count & _ & Hr).
  rewrite scalar_engine_execute_heap in Hr.
  apply bind_ok_inv in Hr as (element_count & _ & Hr).
  rewrite scalar_engine_execute_heap in Hr.
  apply bind_ok_inv in Hr as (nonnull_count & _ & Hr).
  rewrite lift_result_heap in Hr.
  apply bind_ok_inv in Hr as (fr & Hfr & Hr).
  rewrite expect_column_values_to_be_in_set_heap in Hr.
  apply expect_column_values_to_be_in_set_sample_bounded in Hfr.
  apply bind_ok_inv in Hr as (success_count & _ & Hr).
  rewrite lift_result_heap in Hr.
  apply bind_ok_inv in Hr as ([success ps] & _ & Hr).
  simpl in Hr. rewrite spec_calc_map_expectation_success_heap in Hr.
  rewrite (spec_format_column_map_output_sample _ _ _ _ _ _ _ _ _ Hn Hr).
  rewrite length_firstn. unfold unexpected_count_limit in Hfr. split; lia.
Qed.

Lemma partial_unexpected_list_bounded_witness :
  configured_partial_unexpected_count limit_five_store (ARef 1%positive) = Some 5%Z /\
  (0 <= 5)%Z /\
  exists r,
    o_result (inner_wrapper (DataSet0:=SpecDataSet) expect_column_values_to_be_in_set
                thirty_rows_dataset "x" None (Some (ARef 1%positive)) one_to_five
                limit_five_store) = Ok r /\
    length (er_partial_unexpected_list r) = 5%nat /\
    (Z.of_nat (length (er_partial_unexpected_list r)) <= 5)%Z /\
    (length (er_partial_unexpected_list r) <= 20)%nat.
Proof.
  split; [vm_compute; reflexivity|]. split; [lia|].
  eexists. split; [vm_compute; reflexivity|]. split; [reflexivity|].
  eapply (partial_unexpected_list_bounded thirty_rows_dataset "x" None
            (ARef 1%positive) one_to_five limit_five_store 5%Z).
  - vm_compute; reflexivity.
  - lia.
  - vm_compute; reflexivity.
Defined.

(** ** Properties of [categorical_partition_data] *)

Section CategoricalProperties.
Context {V : Type} `{EqDecision V}.

Lemma nonnull_count_dropna (data : list (option V)) :
  length (List.filter (fun b => bool_decide (b = false))
            (List.map (fun x => bool_decide (x = None)) data))
  = length (dropna data).
Proof.
  induction data as [|[v|] data IH]; simpl; [done| |done].
  by rewrite IH.
Qed.

Lemma unique_nil_inv (l : list V) : unique l = [] -> l = [].
Proof. by destruct l. Qed.

Lemma insert_desc_not_nil p (l : list (V * nat)) : insert_desc p l <> [].
Proof. destruct l as [|q l]; simpl; [done|]. by destruct (q.2 <=? p.2)%nat. Qed.

(** The function has no failing path: the only division by zero it could
    meet divides an empty array. *)
Lemma categorical_partition_data_total (data : list (option V)) :
  exists p, categorical_partition_data data = Ok p.
Proof.
  unfold categorical_partition_data. rewrite nonnull_count_dropna.
  unfold value_counts.
  destruct (dropna data) as [|v present] eqn:E; simpl; [by eexists|].
  by eexists.
Qed.

(** C4, as the code has it: on a sample that is empty once the nulls are
    removed, [categorical_partition_data] raises nothing and returns the
    partition with no values and no weights. *)
Theorem categorical_partition_data_empty (data : list (option V)) :
  dropna data = [] ->
  categorical_partition_data data = Ok (mk_categorical [] []).
Proof.
  intros E. unfold categorical_partition_data.
  rewrite nonnull_count_dropna. unfold value_counts. by rewrite E.
Qed.
End CategoricalProperties.

Lemma categorical_partition_data_empty_witness :
  dropna ([None; None] : list (option string)) = [] /\
  categorical_partition_data ([None; None] : list (option string))
  = Ok (mk_categorical [] []).
Proof.
  split; [reflexivity|].
  apply (categorical_partition_data_empty ([None; None] : list (option string))).
  reflexivity.
Defined.

(** C4, as stated: a sample of two nulls is empty after removing nulls,
    and no exception is raised on it. *)
Lemma categorical_partition_data_all_null_no_error :
  dropna ([None; None] : list (option string)) = [] /\
  forall e, categorical_partition_data ([None; None] : list (option string))
            <> Raise e.
Proof. split; [reflexivity|]. intros e. vm_compute. discriminate. Qed.

(** ** Arithmetic of arrays *)

Section ArrayArithmetic.
Local Open Scope Q_scope.

Lemma np_sum_app (a b : list Q) : np_sum (a ++ b) == np_sum a + np_sum b.
Proof.
  induction a as [|x a IH]; simpl; [lra|]. rewrite IH. lra.
Qed.

Lemma last_cons_default (l : list Q) (x y : Q) :
  List.last (y :: l) x = List.last l y.
Proof.
  revert x y. induction l as [|z l IH]; intros x y; [done|].
  change (List.last (y :: z :: l) x) with (List.last (z :: l) x).
  by rewrite (IH x z), (IH y z).
Qed.

(** The differences of an array add up to its last element minus its
    first. *)
Lemma np_sum_np_diff (x : Q) (l : list Q) :
  np_sum (np_diff (x :: l)) == List.last l x - x.
Proof.
  revert x. induction l as [|y l IH]; intros x; [simpl; lra|].
  change (np_diff (x :: y :: l)) with ((y - x) :: np_diff (y :: l)).
  change (np_sum ((y - x) :: np_diff (y :: l)))
    with ((y - x) + np_sum (np_diff (y :: l))).
  rewrite IH.
  rewrite last_cons_default. lra.
Qed.

Lemma last_map (g : Q -> Q) (l : list Q) (x : Q) :
  List.last (List.map g l) (g x) = g (List.last l x).
Proof.
  revert x. induction l as [|y l IH]; intros x; [done|].
  change (List.map g (y :: l)) with (g y :: List.map g l).
  rewrite !last_cons_default. apply IH.
Qed.

Lemma np_diff_length (x : Q) (l : list Q) :
  length (np_diff (x :: l)) = length l.
Proof.
  revert x. induction l as [|y l IH]; intros x; [done|].
  change (np_diff (x :: y :: l)) with ((y - x) :: np_diff (y :: l)).
  cbn [length]. by rewrite IH.
Qed.

Lemma fold_left_Qmin_le (l : list Q) (x : Q) : fold_left Qmin l x <= x.
Proof.
  revert x. induction l as [|y l IH]; intros x; simpl; [lra|].
  eapply Qle_trans; [apply IH|]. apply Q.le_min_l.
Qed.

Lemma fold_left_Qmax_ge (l : list Q) (x : Q) : x <= fold_left Qmax l x.
Proof.
  revert x. induction l as [|y l IH]; intros x; simpl; [lra|].
  eapply Qle_trans; [|apply IH]. apply Q.le_max_l.
Qed.

Lemma np_min_le_np_max (data : list Q) (mn mx : Q) :
  np_min data = Ok mn -> np_max data = Ok mx -> mn <= mx.
Proof.
  destruct data as [|x l]; simpl; [done|].
  intros [= <-] [= <-].
  eapply Qle_trans; [apply fold_left_Qmin_le|apply fold_left_Qmax_ge].
Qed.

Lemma np_linspace_cons (start stop : Q) (num : Z) :
  (1 <= num)%Z ->
  exists rest,
    np_linspace start stop num
    = Ok (linspace_point start stop num 0 :: rest).
Proof.
  intros Hnum. unfold np_linspace.
  destruct (num <? 0)%Z eqn:E; [lia|].
  destruct (Z.to_nat num) as [|k] eqn:Ek; [lia|].
  simpl. by eexists.
Qed.
End ArrayArithmetic.

(** ** Properties of [kde_partition_data] *)

Section KdeProperties.
Local Open Scope Q_scope.

Lemma kde_grid_size (mn mx f : Q) :
  mn <= mx -> 0 < f -> (1 <= Qfloor ((mx - mn) / f + 1))%Z.
Proof.
  intros Hle Hf.
  assert (0 <= (mx - mn) / f) as H0.
  { apply Qle_shift_div_l; [done|]. lra. }
  apply (Qfloor_resp_le 1 ((mx - mn) / f + 1)).
  generalize dependent ((mx - mn) / f). intros t Ht. lra.
Qed.

(** C7: whenever the density estimate can be fitted (with a positive
    bandwidth factor) on a non-empty sample, the partition is built, for
    either value of [estimate_tails]; its weights are the mass below the
    first grid point, the differences of the cumulative distribution
    along the grid and the mass above the last grid point, and they add
    up to 1; there is one more bin edge than weights. *)
Theorem kde_partition_data_weights_sum
    (gaussian_kde : list Q -> result gaussian_kde_obj)
    (data : list Q) (estimate_tails : bool) (kde : gaussian_kde_obj) :
  gaussian_kde data = Ok kde ->
  0 < covariance_factor kde ->
  data <> [] ->
  exists (grid : list Q) (x0 : Q) (p : continuous_partition),
    kde_partition_data gaussian_kde data estimate_tails = Ok p /\
    (let cdf := integrate_box_1d_from_neg_inf kde in
     cp_weights p
     = ([cdf x0] ++ np_diff (List.map cdf (x0 :: grid))
          ++ [1 - cdf (List.last grid x0)])%list) /\
    np_sum (cp_weights p) == 1 /\
    length (cp_bins p) = S (length (cp_weights p)).
Proof.
  intros Hkde Hf Hdata. unfold kde_partition_data. rewrite Hkde.
  destruct (np_min data) as [mn|] eqn:Hmn; [|by destruct data].
  destruct (np_max data) as [mx|] eqn:Hmx; [|by destruct data].
  cbn [rbind].
  pose proof (np_min_le_np_max data mn mx Hmn Hmx) as Hle.
  pose proof (kde_grid_size mn mx _ Hle Hf) as Hnum.
  set (f := covariance_factor kde) in *.
  destruct (np_linspace_cons (mn - f / 2) (mx + f / 2) _ Hnum) as [grid ->].
  set (x0 := linspace_point _ _ _ 0). cbn [rbind].
  set (cdf := integrate_box_1d_from_neg_inf kde).
  change (List.map cdf (x0 :: grid)) with (cdf x0 :: List.map cdf grid).
  cbn [first_item last_item rbind].
  pose proof (last_map cdf grid x0) as Hlast.
  rewrite Hlast.
  exists grid, x0. eexists. split; [reflexivity|].
  cbn [cp_weights cp_bins]. split; [reflexivity|]. split.
  - rewrite np_sum_app, np_sum_app, np_sum_np_diff, Hlast.
    cbn [np_sum fold_right]. lra.
  - pose proof (np_diff_length (cdf x0) (List.map cdf grid)) as Hd.
    rewrite length_map in Hd.
    destruct estimate_tails; cbn [app length List.map];
      rewrite ?length_app, ?length_map, ?Hd; cbn [length];
      rewrite ?length_map; lia.
Qed.
End KdeProperties.

Lemma kde_partition_data_weights_sum_witness :
  let kde := mk_kde (1 # 2) (fun x => Qmax 0 (Qmin 1 ((x + 1) / 5)))%Q in
  exists (grid : list Q) (x0 : Q) (p : continuous_partition),
    kde_partition_data uniform_kde [1; 2; 3]%Q true = Ok p /\
    (let cdf := integrate_box_1d_from_neg_inf kde in
     cp_weights p
     = ([cdf x0] ++ np_diff (List.map cdf (x0 :: grid))
          ++ [1 - cdf (List.last grid x0)])%list%Q) /\
    (np_sum (cp_weights p) == 1)%Q /\
    length (cp_bins p) = S (length (cp_weights p)).
Proof.
  intros kde.
  apply (kde_partition_data_weights_sum uniform_kde [1; 2; 3]%Q true kde);
    [reflexivity | reflexivity | discriminate].
Defined.

(** ** Properties of the partition validators *)

Section ValidatorProperties.
Local Open Scope Q_scope.

Lemma mapM_length {A B} (f : A -> result B) (l : list A) (l' : list B) :
  mapM f l = Ok l' -> length l' = length l.
Proof.
  revert l'. induction l as [|x l IH]; intros l'; simpl.
  - by intros [= <-].
  - destruct (f x) as [y|]; [|done]. simpl.
    destruct (mapM f l) as [ys|]; [|done]. simpl.
    intros [= <-]. simpl. by rewrite (IH ys).
Qed.

Lemma as_float_array_len (x : pyval) (b : list Q) :
  as_float_array x = Ok b -> py_len x = Ok (length b).
Proof.
  destruct x; simpl; try done; intros H; by rewrite (mapM_length _ _ _ H).
Qed.

Lemma Qlt_bool_iff (x y : Q) : Qlt_bool x y = true <-> x < y.
Proof.
  unfold Qlt_bool. rewrite negb_true_iff.
  destruct (Qle_bool y x) eqn:E.
  - apply Qle_bool_iff in E. split; [done|]. intros H. lra.
  - split; [|done]. intros _. apply Qnot_le_lt. intros H.
    apply Qle_bool_iff in H. congruence.
Qed.

Lemma np_diff_pos_sorted (b : list Q) :
  forallb (fun d => Qlt_bool 0 d) (np_diff b) = true <-> Sorted Qlt b.
Proof.
  induction b as [|x b IH]; [split; [constructor|done]|].
  destruct b as [|y b]; [split; [repeat constructor|done]|].
  change (np_diff (x :: y :: b)) with ((y - x) :: np_diff (y :: b)).
  cbn [forallb]. rewrite andb_true_iff, IH, Qlt_bool_iff. split.
  - intros [Hxy Hs]. constructor; [done|]. constructor. lra.
  - intros Hs. inversion Hs as [|? ? Hs' Hhd]; subst.
    inversion Hhd; subst. split; [lra|done].
Qed.

Lemma np_allclose_one (s : Q) :
  np_allclose s 1 = true <-> Qabs (s - 1) <= (1 # 100000000) + (1 # 100000).
Proof.
  unfold np_allclose. rewrite Qle_bool_iff.
  assert ((1 # 100000000) + (1 # 100000) * Qabs 1
          == (1 # 100000000) + (1 # 100000)) as -> by reflexivity.
  done.
Qed.

End ValidatorProperties.


(** ** Properties of [np.linspace] and [np.histogram] *)

Section HistogramProperties.
Local Open Scope Q_scope.

Lemma linspace_point_succ (start stop : Q) (num : Z) (i : nat) :
  linspace_point start stop num (S i)
  == linspace_point start stop num i + (stop - start) / inject_Z (num - 1).
Proof.
  unfold linspace_point. rewrite Nat2Z.inj_succ. unfold Z.succ.
  rewrite inject_Z_plus. change (inject_Z 1) with 1. unfold Qdiv. ring.
Qed.

Lemma monotonic_cons2 (a b : Q) (l : list Q) :
  monotonic (a :: b :: l) = Qle_bool a b && monotonic (b :: l).
Proof. reflexivity. Qed.

Lemma monotonic_linspace (start stop : Q) (num : Z) (i k : nat) :
  0 <= (stop - start) / inject_Z (num - 1) ->
  monotonic (List.map (linspace_point start stop num) (seq i k)) = true.
Proof.
  intros Hs. revert i. induction k as [|k IH]; intros i; [done|].
  destruct k as [|k]; [done|].
  specialize (IH (S i)). cbn [seq List.map] in IH |- *.
  rewrite monotonic_cons2, IH, andb_true_r.
  apply Qle_bool_iff. rewrite linspace_point_succ. lra.
Qed.

Lemma np_diff_linspace (start stop : Q) (num : Z) (i k : nat) :
  Forall (fun d => d == (stop - start) / inject_Z (num - 1))
    (np_diff (List.map (linspace_point start stop num) (seq i k))).
Proof.
  revert i. induction k as [|k IH]; intros i; [constructor|].
  destruct k as [|k]; [constructor|].
  specialize (IH (S i)). cbn [seq List.map] in IH |- *.
  set (pt := linspace_point start stop num) in *.
  change (np_diff (pt i :: pt (S i) :: List.map pt (seq (S (S i)) k)))
    with ((pt (S i) - pt i)
            :: np_diff (pt (S i) :: List.map pt (seq (S (S i)) k))).
  constructor; [|done]. unfold pt. rewrite linspace_point_succ. ring.
Qed.

Lemma linspace_point_first (start stop : Q) (num : Z) :
  linspace_point start stop num 0 == start.
Proof. unfold linspace_point. simpl. ring. Qed.

Lemma linspace_point_last (start stop : Q) (n : Z) :
  (1 <= n)%Z ->
  linspace_point start stop (n + 1) (Z.to_nat n) == stop.
Proof.
  intros Hn. unfold linspace_point. rewrite Z2Nat.id by lia.
  replace (n + 1 - 1)%Z with n by lia.
  assert (~ inject_Z n == 0) as Hnz.
  { change 0 with (inject_Z 0). rewrite inject_Z_injective. lia. }
  field. done.
Qed.

Lemma monotonic_le_last (a : Q) (l : list Q) :
  monotonic (a :: l) = true -> a <= List.last l a.
Proof.
  revert a. induction l as [|b l IH]; intros a; [simpl; lra|].
  rewrite monotonic_cons2, andb_true_iff, Qle_bool_iff. intros [Hab Hm].
  rewrite last_cons_default. specialize (IH b Hm). lra.
Qed.

Lemma Qle_bool_false (x y : Q) : Qle_bool x y = false -> y < x.
Proof.
  intros H. apply Qnot_le_lt. intros Hle. apply Qle_bool_iff in Hle.
  congruence.
Qed.

Lemma Qlt_bool_false (x y : Q) : Qlt_bool x y = false -> y <= x.
Proof.
  unfold Qlt_bool. rewrite negb_false_iff. apply Qle_bool_iff.
Qed.

Ltac bool_to_Q :=
  repeat match goal with
    | H : Qle_bool _ _ = true |- _ => apply Qle_bool_iff in H
    | H : Qle_bool _ _ = false |- _ => apply Qle_bool_false in H
    | H : Qlt_bool _ _ = true |- _ => apply Qlt_bool_iff in H
    | H : Qlt_bool _ _ = false |- _ => apply Qlt_bool_false in H
    end.

(** A half-open bin and the closed range after it make up one closed
    range. *)
Lemma count_if_split (a b c : Q) (data : list Q) :
  a <= b -> b <= c ->
  (count_if (fun x => Qle_bool a x && Qlt_bool x b) data
   + count_if (fun x => Qle_bool b x && Qle_bool x c) data)%nat
  = count_if (fun x => Qle_bool a x && Qle_bool x c) data.
Proof.
  intros Hab Hbc. unfold count_if.
  induction data as [|x data IH]; [done|]. cbn [List.filter].
  destruct (Qle_bool a x) eqn:E1, (Qlt_bool x b) eqn:E2,
           (Qle_bool b x) eqn:E3, (Qle_bool x c) eqn:E4;
    cbn [andb length]; first [lia | exfalso; bool_to_Q; lra].
Qed.

(** Every element between the first and the last edge is counted in
    exactly one bin. *)
Lemma histogram_counts_sum (data : list Q) (a : Q) (rest : list Q) :
  rest <> [] -> monotonic (a :: rest) = true ->
  list_sum (histogram_counts data (a :: rest))
  = count_if (fun x => Qle_bool a x && Qle_bool x (List.last rest a)) data.
Proof.
  revert a. induction rest as [|b rest IH]; intros a Hne Hm; [done|].
  destruct rest as [|c rest]; [simpl; lia|].
  rewrite monotonic_cons2, andb_true_iff, Qle_bool_iff in Hm.
  destruct Hm as [Hab Hm].
  change (histogram_counts data (a :: b :: c :: rest))
    with (count_if (fun x => Qle_bool a x && Qlt_bool x b) data
            :: histogram_counts data (b :: c :: rest)).
  change (list_sum (?x :: ?l)) with (x + list_sum l)%nat.
  rewrite (IH b) by done.
  rewrite (last_cons_default (c :: rest) a b).
  apply count_if_split; [done|]. by apply monotonic_le_last.
Qed.

Lemma histogram_counts_length (data : list Q) (a : Q) (rest : list Q) :
  length (histogram_counts data (a :: rest)) = length rest.
Proof.
  revert a. induction rest as [|b rest IH]; intros a; [done|].
  destruct rest as [|c rest]; [done|].
  change (histogram_counts data (a :: b :: c :: rest))
    with (count_if (fun x => Qle_bool a x && Qlt_bool x b) data
            :: histogram_counts data (b :: c :: rest)).
  cbn [length]. by rewrite IH.
Qed.

Lemma count_if_all (f : Q -> bool) (data : list Q) :
  Forall (fun x => f x = true) data -> count_if f data = length data.
Proof.
  unfold count_if. induction 1 as [|x data Hx _ IH]; [done|].
  cbn [List.filter]. rewrite Hx. cbn [length]. by rewrite IH.
Qed.

Lemma np_sum_divide (counts : list nat) (d : Q) :
  np_sum (List.map (fun c => inject_Z (Z.of_nat c) / d) counts)
  == inject_Z (Z.of_nat (list_sum counts)) / d.
Proof.
  induction counts as [|c counts IH].
  - simpl. unfold Qdiv. ring.
  - cbn [List.map]. change (np_sum (?x :: ?l)) with (x + np_sum l).
    change (list_sum (c :: counts)) with (c + list_sum counts)%nat.
    rewrite IH, Nat2Z.inj_add, inject_Z_plus. unfold Qdiv. ring.
Qed.

Lemma fold_left_Qmin_lower (l : list Q) (x : Q) :
  Forall (fun y => fold_left Qmin l x <= y) l.
Proof.
  revert x. induction l as [|y l IH]; intros x; constructor.
  - cbn [fold_left]. eapply Qle_trans; [apply fold_left_Qmin_le|].
    apply Q.le_min_r.
  - apply IH.
Qed.

Lemma fold_left_Qmax_upper (l : list Q) (x : Q) :
  Forall (fun y => y <= fold_left Qmax l x) l.
Proof.
  revert x. induction l as [|y l IH]; intros x; constructor.
  - cbn [fold_left]. eapply Qle_trans; [|apply fold_left_Qmax_ge].
    apply Q.le_max_r.
  - apply IH.
Qed.

Lemma np_min_lower (data : list Q) (mn : Q) :
  np_min data = Ok mn -> Forall (fun x => mn <= x) data.
Proof.
  destruct data as [|x l]; [done|]. intros [= <-]. constructor.
  - apply fold_left_Qmin_le.
  - apply fold_left_Qmin_lower.
Qed.

Lemma np_max_upper (data : list Q) (mx : Q) :
  np_max data = Ok mx -> Forall (fun x => x <= mx) data.
Proof.
  destruct data as [|x l]; [done|]. intros [= <-]. constructor.
  - apply fold_left_Qmax_ge.
  - apply fold_left_Qmax_upper.
Qed.

(** From the edges to the partition object: the last two steps of
    [continuous_partition_data]. *)
Lemma partition_of_edges (au : list Q -> list Q) (data edges : list Q) :
  data <> [] -> edges <> [] -> monotonic edges = true ->
  rbind (np_histogram au data (BinsArray edges)) (fun '(hist, bin_edges) =>
  rbind (divide_counts hist (length data)) (fun weights =>
  Ok (mk_continuous (List.map Fin bin_edges) weights)))
  = Ok (mk_continuous (List.map Fin edges)
          (List.map (fun c => inject_Z (Z.of_nat c)
                              / inject_Z (Z.of_nat (length data)))
             (histogram_counts data edges))).
Proof.
  intros Hd He Hm. unfold np_histogram. rewrite Hm. cbn [rbind].
  destruct data as [|x data]; [done|]. reflexivity.
Qed.

Lemma seq_last_point (g : nat -> Q) (k : nat) :
  List.last (List.map g (seq 1 k)) (g 0%nat) = g k.
Proof.
  destruct k as [|k]; [done|].
  rewrite seq_S, map_app. cbn [List.map]. apply last_last.
Qed.

Lemma monotonic_Sorted (l : list Q) : monotonic l = true -> Sorted Qle l.
Proof.
  induction l as [|x l IH]; [constructor|]. destruct l as [|y l].
  - repeat constructor.
  - rewrite monotonic_cons2, andb_true_iff, Qle_bool_iff. intros [Hxy Hm].
    constructor; [by apply IH|]. by constructor.
Qed.

(** C3, as the code has it.  On the empty sample 'uniform' mode raises
    [ValueError].  On a sample that is not empty, for at least one bin: the
    partition is built; there are [n_bins + 1] edges and [n_bins] weights;
    the first edge is the minimum and the last edge the maximum of the
    sample; all consecutive edges are [(max - min) / n_bins] apart; the
    edges do not decrease; the weights add up to 1.  On a constant sample
    all the edges are equal, so they do not increase strictly. *)
Theorem continuous_partition_data_uniform
    (au : list Q -> list Q) (data : list Q) (n_bins : Z) (mn mx : Q) :
  np_min data = Ok mn ->
  np_max data = Ok mx ->
  (1 <= n_bins)%Z ->
  (exists msg,
     continuous_partition_data au [] "uniform" n_bins = Raise (ValueError msg)) /\
  exists edges weights : list Q,
    continuous_partition_data au data "uniform" n_bins
    = Ok (mk_continuous (List.map Fin edges) weights) /\
    Z.of_nat (length edges) = (n_bins + 1)%Z /\
    Z.of_nat (length weights) = n_bins /\
    nth 0 edges 0 == mn /\
    List.last edges 0 == mx /\
    Forall (fun d => d == (mx - mn) / inject_Z n_bins) (np_diff edges) /\
    Sorted Qle edges /\
    np_sum weights == 1 /\
    (mn == mx -> Forall (fun e => e == mn) edges /\ ~ Sorted Qlt edges).
Proof.
  intros Hmn Hmx Hn. split; [by eexists|].
  assert (data <> []) as Hd by (by destruct data).
  pose proof (np_min_le_np_max data mn mx Hmn Hmx) as Hle.
  assert (0 <= (mx - mn) / inject_Z (n_bins + 1 - 1)) as Hstep.
  { replace (n_bins + 1 - 1)%Z with n_bins by lia.
    apply Qle_shift_div_l; [|lra].
    change 0 with (inject_Z 0). rewrite <- Zlt_Qlt. lia. }
  set (pt := linspace_point mn mx (n_bins + 1)).
  set (edges := List.map pt (seq 0 (Z.to_nat (n_bins + 1)))).
  assert (Z.to_nat (n_bins + 1) = S (Z.to_nat n_bins)) as Hnum by lia.
  assert (edges = pt 0%nat :: List.map pt (seq 1 (Z.to_nat n_bins))) as Hedges.
  { unfold edges. by rewrite Hnum. }
  assert (monotonic edges = true) as Hmono by (by apply monotonic_linspace).
  assert (Z.to_nat n_bins <> 0%nat) as Hk by lia.
  exists edges. eexists.
  split; [|split; [|split; [|split; [|split; [|split; [|split; [|split]]]]]]].
  - unfold continuous_partition_data.
    change (String.eqb "uniform" "uniform") with true. cbv iota.
    rewrite Hmn, Hmx. cbn [rbind]. unfold np_linspace.
    destruct (n_bins + 1 <? 0)%Z eqn:E; [lia|]. cbn [rbind].
    fold pt. fold edges.
    apply partition_of_edges; [done| |done].
    rewrite Hedges. done.
  - unfold edges. rewrite length_map, length_seq. lia.
  - rewrite length_map, Hedges, histogram_counts_length, length_map, length_seq.
    lia.
  - rewrite Hedges. cbn [nth]. apply linspace_point_first.
  - rewrite Hedges, last_cons_default, seq_last_point.
    by apply linspace_point_last.
  - pose proof (np_diff_linspace mn mx (n_bins + 1) 0 (Z.to_nat (n_bins + 1))) as H.
    replace (n_bins + 1 - 1)%Z with n_bins in H by lia. exact H.
  - by apply monotonic_Sorted.
  - rewrite np_sum_divide.
    rewrite Hedges, histogram_counts_sum; [|by destruct (Z.to_nat n_bins)|by rewrite <- Hedges].
    rewrite seq_last_point, count_if_all.
    + destruct data as [|x data]; [done|].
      field. change 0 with (inject_Z 0). rewrite inject_Z_injective.
      cbn [length]. lia.
    + pose proof (np_min_lower data mn Hmn) as Hlo.
      pose proof (np_max_upper data mx Hmx) as Hhi.
      rewrite Forall_forall in Hlo, Hhi |- *. intros x Hx.
      apply andb_true_iff. rewrite !Qle_bool_iff.
      unfold pt. rewrite linspace_point_first, linspace_point_last by done.
      split; [by apply Hlo|by apply Hhi].
  - intros Heq.
    assert (forall i, pt i == mn) as Hpt.
    { intros i. unfold pt, linspace_point. rewrite Heq. unfold Qdiv. ring. }
    split.
    + apply List.Forall_forall. intros e He. unfold edges in He.
      apply in_map_iff in He as (i & <- & _). apply Hpt.
    + rewrite Hedges. destruct (Z.to_nat n_bins) as [|k]; [done|].
      cbn [seq List.map]. intros Hs.
      apply Sorted_inv in Hs as [_ Hhd]. inversion Hhd as [|? ? Hlt]; subst.
      rewrite !Hpt in Hlt. lra.
Qed.
End HistogramProperties.

Lemma continuous_partition_data_uniform_witness :
  (exists msg,
     continuous_partition_data (fun _ => []) [] "uniform" 2
     = Raise (ValueError msg)) /\
  exists edges weights : list Q,
    continuous_partition_data (fun _ => []) [1; 2; 3; 4]%Q "uniform" 2
    = Ok (mk_continuous (List.map Fin edges) weights) /\
    Z.of_nat (length edges) = (2 + 1)%Z /\
    Z.of_nat (length weights) = 2%Z /\
    (nth 0 edges 0 == 1)%Q /\
    (List.last edges 0 == 4)%Q /\
    Forall (fun d => d == (4 - 1) / inject_Z 2)%Q (np_diff edges) /\
    Sorted Qle edges /\
    (np_sum weights == 1)%Q /\
    ((1 == 4)%Q -> Forall (fun e => e == 1)%Q edges /\ ~ Sorted Qlt edges).
Proof.
  apply (continuous_partition_data_uniform (fun _ => []) [1; 2; 3; 4]%Q 2 1%Q 4%Q);
    [reflexivity | reflexivity | lia].
Defined.

(** C3 as stated, "for every sample": on a constant sample the minimum and
    the maximum coincide, all the edges are equal and so do not increase
    strictly. *)
Lemma continuous_partition_data_uniform_constant_sample :
  exists edges weights : list Q,
    continuous_partition_data (fun _ => []) [5; 5; 5]%Q "uniform" 2
    = Ok (mk_continuous (List.map Fin edges) weights) /\
    Forall (fun e => e == 5)%Q edges /\
    ~ Sorted Qlt edges.
Proof.
  exists [10 # 2; 10 # 2; 10 # 2]%Q, [0 # 3; 3 # 3]%Q.
  split; [vm_compute; reflexivity|]. split.
  - repeat constructor.
  - intros H. inversion H as [|? ? _ Hhd]; subst.
    inversion Hhd as [|? ? Hlt]; subst. vm_compute in Hlt. discriminate.
Qed.

(** ** Properties of [np.percentile] *)

Section PercentileProperties.
Local Open Scope Q_scope.

Lemma monotonic_insert_sorted (x : Q) (l : list Q) :
  monotonic l = true -> monotonic (insert_sorted x l) = true.
Proof.
  induction l as [|y l IH]; [done|]. intros Hm. cbn [insert_sorted].
  destruct (Qle_bool x y) eqn:Exy.
  - by rewrite monotonic_cons2, Exy, Hm.
  - destruct l as [|z l]; cbn [insert_sorted] in IH |- *.
    + rewrite monotonic_cons2, andb_true_r. apply Qle_bool_iff.
      apply Qle_bool_false in Exy. lra.
    + rewrite monotonic_cons2 in Hm. apply andb_true_iff in Hm as [Hyz Hm].
      specialize (IH Hm). destruct (Qle_bool x z) eqn:Exz.
      * rewrite monotonic_cons2, IH, andb_true_r. apply Qle_bool_iff.
        apply Qle_bool_false in Exy. lra.
      * by rewrite monotonic_cons2, Hyz, IH.
Qed.

Lemma monotonic_np_sort (a : list Q) : monotonic (np_sort a) = true.
Proof.
  induction a as [|x a IH]; [done|]. by apply monotonic_insert_sorted.
Qed.

Lemma np_sort_length (a : list Q) : length (np_sort a) = length a.
Proof.
  assert (forall x l, length (insert_sorted x l) = S (length l)) as Hins.
  { intros x l. induction l as [|y l IH]; [done|]. cbn [insert_sorted].
    destruct (Qle_bool x y); [done|]. cbn [length]. by rewrite IH. }
  induction a as [|x a IH]; [done|].
  change (np_sort (x :: a)) with (insert_sorted x (np_sort a)).
  rewrite Hins. cbn [length]. by rewrite IH.
Qed.

(** Reading a sorted array past its end gives its last element, so the
    extended sequence does not decrease. *)
Lemma nth_sorted_step (s : list Q) (i : nat) :
  monotonic s = true ->
  nth i s (List.last s 0) <= nth (S i) s (List.last s 0).
Proof.
  revert i. induction s as [|a s IH]; intros i Hm.
  - destruct i; simpl; lra.
  - destruct s as [|b s].
    + destruct i as [|[|i]]; simpl; lra.
    + rewrite monotonic_cons2 in Hm. apply andb_true_iff in Hm as [Hab Hm].
      change (List.last (a :: b :: s) 0) with (List.last (b :: s) 0).
      destruct i as [|i].
      * apply Qle_bool_iff in Hab. exact Hab.
      * exact (IH i Hm).
Qed.

Lemma nth_sorted_le (s : list Q) (i j : nat) :
  monotonic s = true -> (i <= j)%nat ->
  nth i s (List.last s 0) <= nth j s (List.last s 0).
Proof.
  intros Hm Hij. induction Hij as [|j _ IH]; [lra|].
  eapply Qle_trans; [exact IH|]. by apply nth_sorted_step.
Qed.

Lemma floor_index (t : Q) :
  0 <= t ->
  inject_Z (Z.of_nat (Z.to_nat (Qfloor t))) <= t /\
  t < inject_Z (Z.of_nat (Z.to_nat (Qfloor t))) + 1.
Proof.
  intros Ht.
  assert (0 <= Qfloor t)%Z as H0 by (apply (Qfloor_resp_le 0 t Ht)).
  rewrite Z2Nat.id by done. split; [apply Qfloor_le|].
  pose proof (Qlt_floor t) as H. rewrite inject_Z_plus in H. exact H.
Qed.

(** Linear interpolation between the ranks of a sorted array does not
    decrease. *)
Lemma percentile_of_sorted_mono (s : list Q) (q1 q2 : Q) :
  monotonic s = true -> 0 <= q1 -> q1 <= q2 ->
  percentile_of_sorted s q1 <= percentile_of_sorted s q2.
Proof.
  intros Hm H1 H12. unfold percentile_of_sorted.
  set (L := inject_Z (Z.of_nat (length s - 1))).
  assert (0 <= L) as HL.
  { unfold L. change 0 with (inject_Z 0). rewrite <- Zle_Qle. lia. }
  set (t1 := q1 / 100 * L). set (t2 := q2 / 100 * L).
  assert (0 <= t1) as Ht1.
  { unfold t1. apply Qmult_le_0_compat; [|done].
    apply Qle_shift_div_l; [reflexivity|]. lra. }
  assert (t1 <= t2) as Ht12.
  { unfold t1, t2. apply Qmult_le_compat_r; [|done].
    apply Qmult_le_compat_r; [done|]. discriminate. }
  assert (0 <= t2) as Ht2 by lra.
  destruct (floor_index t1 Ht1) as [Hlo1 Hhi1].
  destruct (floor_index t2 Ht2) as [Hlo2 Hhi2].
  pose proof (Qfloor_resp_le t1 t2 Ht12) as Hfl.
  assert (0 <= Qfloor t1)%Z as H01 by (apply (Qfloor_resp_le 0 t1 Ht1)).
  set (k1 := Z.to_nat (Qfloor t1)) in *.
  set (k2 := Z.to_nat (Qfloor t2)) in *.
  assert (k1 <= k2)%nat as Hk by lia.
  set (ext := fun i => nth i s (List.last s 0)).
  change (ext k1 + (t1 - inject_Z (Z.of_nat k1)) * (ext (S k1) - ext k1)
          <= ext k2 + (t2 - inject_Z (Z.of_nat k2)) * (ext (S k2) - ext k2)).
  pose proof (nth_sorted_step s k1 Hm) as Hs1. fold (ext k1) (ext (S k1)) in Hs1.
  pose proof (nth_sorted_step s k2 Hm) as Hs2. fold (ext k2) (ext (S k2)) in Hs2.
  set (a1 := t1 - inject_Z (Z.of_nat k1)) in *.
  set (a2 := t2 - inject_Z (Z.of_nat k2)) in *.
  set (D1 := ext (S k1) - ext k1) in *.
  set (D2 := ext (S k2) - ext k2) in *.
  assert (0 <= a2 * D2) as Hp2 by (apply Qmult_le_0_compat; unfold a2, D2; lra).
  destruct (decide (k1 = k2)) as [Heq|Hne].
  - unfold D2, a2, D1, a1. rewrite <- Heq.
    assert (0 <= (t2 - t1) * (ext (S k1) - ext k1)) as Hp
      by (apply Qmult_le_0_compat; lra).
    lra.
  - assert (S k1 <= k2)%nat as Hlt by lia.
    pose proof (nth_sorted_le s (S k1) k2 Hm Hlt) as Hmid.
    fold (ext (S k1)) (ext k2) in Hmid.
    assert (0 <= (1 - a1) * D1) as Hp1
      by (apply Qmult_le_0_compat; unfold a1, D1; lra).
    unfold D1 in *. lra.
Qed.

Lemma monotonic_map_percentile (s qs : list Q) :
  monotonic s = true -> Forall (fun q => 0 <= q) qs -> monotonic qs = true ->
  monotonic (List.map (percentile_of_sorted s) qs) = true.
Proof.
  intros Hs Hq. induction Hq as [|q qs Hq0 Hq IH]; [done|]. intros Hm.
  destruct qs as [|q' qs]; [done|].
  rewrite monotonic_cons2 in Hm. apply andb_true_iff in Hm as [Hqq Hm].
  cbn [List.map] in IH |- *. rewrite monotonic_cons2, (IH Hm), andb_true_r.
  apply Qle_bool_iff. apply Qle_bool_iff in Hqq.
  by apply percentile_of_sorted_mono.
Qed.

(** The percentages [np.linspace(0, 100, n + 1)] lie in [[0, 100]]. *)
Lemma linspace_percent_range (n : Z) (i : nat) :
  (1 <= n)%Z -> (i <= Z.to_nat n)%nat ->
  0 <= linspace_point 0 100 (n + 1) i <= 100.
Proof.
  intros Hn Hi. unfold linspace_point.
  replace (n + 1 - 1)%Z with n by lia.
  assert (0 < inject_Z n) as Hpos.
  { change 0 with (inject_Z 0). rewrite <- Zlt_Qlt. lia. }
  assert (0 <= (100 - 0) / inject_Z n) as Hstep.
  { apply Qle_shift_div_l; [done|]. lra. }
  assert (0 <= inject_Z (Z.of_nat i)) as Hi0.
  { change 0 with (inject_Z 0). rewrite <- Zle_Qle. lia. }
  assert (inject_Z (Z.of_nat i) <= inject_Z n) as Hin.
  { rewrite <- Zle_Qle. lia. }
  split.
  - pose proof (Qmult_le_0_compat _ _ Hi0 Hstep). lra.
  - pose proof (Qmult_le_compat_r _ _ _ Hin Hstep) as H.
    assert (inject_Z n * ((100 - 0) / inject_Z n) == 100) as E
      by (field; lra).
    lra.
Qed.

(** C5: a mode other than 'uniform', 'ntile' and 'auto' raises
    [ValueError], whatever the sample and the number of bins; with each of
    these three modes a partition is returned, for a sample that is not
    empty and at least one bin. *)
Theorem continuous_partition_data_modes
    (au : list Q -> list Q) (data : list Q) (bins : string) (n_bins : Z) :
  data <> [] ->
  (1 <= n_bins)%Z ->
  (bins = "uniform" \/ bins = "ntile" \/ bins = "auto" ->
   exists p, continuous_partition_data au data bins n_bins = Ok p) /\
  (bins <> "uniform" -> bins <> "ntile" -> bins <> "auto" ->
   forall data' n_bins',
     continuous_partition_data au data' bins n_bins'
     = Raise (ValueError "Invalid parameter for bins argument")).
Proof.
  intros Hd Hn. split.
  - assert (Z.to_nat (n_bins + 1) = S (Z.to_nat n_bins)) as Hnum by lia.
    intros [->|[->| ->]]; unfold continuous_partition_data.
    + change (String.eqb "uniform" "uniform") with true. cbv iota.
      destruct (np_min data) as [mn|] eqn:Hmn; [|by destruct data].
      destruct (np_max data) as [mx|] eqn:Hmx; [|by destruct data].
      cbn [rbind]. unfold np_linspace.
      destruct (n_bins + 1 <? 0)%Z eqn:E; [lia|]. cbn [rbind].
      eexists. apply partition_of_edges; [done|by rewrite Hnum|].
      apply monotonic_linspace. replace (n_bins + 1 - 1)%Z with n_bins by lia.
      pose proof (np_min_le_np_max data mn mx Hmn Hmx).
      apply Qle_shift_div_l; [|lra].
      change 0 with (inject_Z 0). rewrite <- Zlt_Qlt. lia.
    + change (String.eqb "ntile" "uniform") with false.
      change (String.eqb "ntile" "ntile") with true. cbv iota.
      unfold np_linspace.
      destruct (n_bins + 1 <? 0)%Z eqn:E; [lia|]. cbn [rbind].
      set (qs := List.map (linspace_point 0 100 (n_bins + 1))
                   (seq 0 (Z.to_nat (n_bins + 1)))).
      assert (Forall (fun q => 0 <= q <= 100) qs) as Hrange.
      { apply List.Forall_forall. intros q Hq. unfold qs in Hq.
        apply in_map_iff in Hq as (i & <- & Hi). apply in_seq in Hi.
        apply linspace_percent_range; [done|lia]. }
      unfold np_percentile. destruct data as [|x data]; [done|].
      assert (forallb (fun q => Qle_bool 0 q && Qle_bool q 100) qs = true) as ->.
      { apply forallb_forall. intros q Hq.
        rewrite List.Forall_forall in Hrange. destruct (Hrange q Hq).
        apply andb_true_iff. by rewrite !Qle_bool_iff. }
      cbn [rbind]. eexists. apply partition_of_edges; [done| |].
      * unfold qs. by rewrite Hnum.
      * apply monotonic_map_percentile.
        -- apply monotonic_np_sort.
        -- eapply Forall_impl; [exact Hrange|]. by intros q [? _].
        -- apply monotonic_linspace.
           replace (n_bins + 1 - 1)%Z with n_bins by lia.
           apply Qle_shift_div_l; [|lra].
           change 0 with (inject_Z 0). rewrite <- Zlt_Qlt. lia.
    + change (String.eqb "auto" "uniform") with false.
      change (String.eqb "auto" "ntile") with false.
      change (String.eqb "auto" "auto") with true. cbn [negb rbind np_histogram].
      destruct data as [|x data]; [done|].
      unfold divide_counts. cbn [length rbind]. by eexists.
  - intros H1 H2 H3 data' n_bins'. unfold continuous_partition_data.
    apply String.eqb_neq in H1, H2, H3. by rewrite H1, H2, H3.
Qed.
End PercentileProperties.

Lemma continuous_partition_data_modes_witness :
  (("ntile" = "uniform" \/ "ntile" = "ntile" \/ "ntile" = "auto") ->
   exists p, continuous_partition_data (fun _ => []) [1; 2; 3; 4]%Q "ntile" 2 = Ok p) /\
  ("ntile" <> "uniform" -> "ntile" <> "ntile" -> "ntile" <> "auto" ->
   forall data' n_bins',
     continuous_partition_data (fun _ => []) data' "ntile" n_bins'
     = Raise (ValueError "Invalid parameter for bins argument")).
Proof.
  apply (continuous_partition_data_modes (fun _ => []) [1; 2; 3; 4]%Q "ntile" 2);
    [discriminate | lia].
Defined.

(** C5 as stated: the mode string 'quantile' is not one the function
    accepts. *)
Lemma continuous_partition_data_quantile_rejected :
  continuous_partition_data (fun _ => []) [1; 2; 3; 4]%Q "quantile" 2
  = Raise (ValueError "Invalid parameter for bins argument").
Proof. reflexivity. Qed.

(** ** Further properties of [parse_result_format] *)

(** Parsing what [parse_result_format] returned changes nothing more: the
    same object comes back and the store stays as the first call left it. *)
Theorem parse_result_format_idempotent (h : heap) (result_format : pyarg) :
  let '(h', l) := parse_result_format h result_format in
  parse_result_format h' (ARef l) = (h', l).
Proof.
  destruct result_format as [s|l]; unfold parse_result_format.
  - unfold heap_alloc. rewrite lookup_total_insert_eq.
    unfold new_result_format. by rewrite lookup_insert_eq.
  - destruct ((h !!! l) !! "partial_unexpected_count") as [v|] eqn:E.
    + by rewrite E.
    + by rewrite lookup_total_insert_eq, lookup_insert_eq.
Qed.

(** Two labels parsed one after the other give two distinct dicts, and the
    second call leaves the first dict as it was. *)
Theorem parse_result_format_strings_not_aliased (h : heap) (s1 s2 : string) :
  let '(h1, l1) := parse_result_format h (AStr s1) in
  let '(h2, l2) := parse_result_format h1 (AStr s2) in
  l1 <> l2 /\
  h2 !! l1 = Some (new_result_format s1) /\
  h2 !! l2 = Some (new_result_format s2).
Proof.
  unfold parse_result_format, heap_alloc.
  set (l1 := fresh (dom h)). set (h1 := <[l1 := new_result_format s1]> h).
  set (l2 := fresh (dom h1)).
  assert (l1 <> l2) as Hne.
  { intros Heq. pose proof (is_fresh (dom h1)) as Hf. fold l2 in Hf.
    apply Hf. rewrite <- Heq. unfold h1. rewrite dom_insert. set_solver. }
  split; [done|]. split.
  - rewrite lookup_insert_ne by done. apply lookup_insert_eq.
  - apply lookup_insert_eq.
Qed.

(** ** Further properties of [recursively_convert_to_json_serializable] *)

Lemma mapM_Forall2 {A B} (f : A -> result B) (l : list A) (l' : list B) :
  mapM f l = Ok l' <-> Forall2 (fun x y => f x = Ok y) l l'.
Proof.
  revert l'. induction l as [|x l IH]; intros l'; simpl.
  - split; [intros [= <-]; constructor|]. by inversion 1.
  - destruct (f x) as [y|e] eqn:Ex; simpl.
    + destruct (mapM f l) as [ys|e]; simpl.
      * split.
        -- intros [= <-]. constructor; [done|]. by apply IH.
        -- inversion 1 as [|? y' ? ys' Hy Hys]; subst.
           apply (proj2 (IH _)) in Hys. congruence.
      * split; [done|]. inversion 1 as [|? y' ? ys' Hy Hys]; subst.
        by apply (proj2 (IH _)) in Hys.
    + split; [done|]. inversion 1; subst. congruence.
Qed.

Lemma mapM_id {A} (f : A -> result A) (l : list A) :
  Forall (fun x => f x = Ok x) l -> mapM f l = Ok l.
Proof.
  induction 1 as [|x l Hx _ IH]; simpl; [done|]. by rewrite Hx, IH.
Qed.

(** A value [json.dumps] takes as it is comes back as an equal value. *)
Lemma json_native_fixed (v : pyval) :
  json_native v = true -> recursively_convert_to_json_serializable v = Ok v.
Proof.
  induction v as [| | | | |items IH|l IH|l IH|l IH|l IH|l IH| | | | |]
    using pyval_ind; try done.
  - cbn [json_native recursively_convert_to_json_serializable]. intros Hn.
    rewrite mapM_id; [done|].
    rewrite forallb_forall in Hn. rewrite List.Forall_forall in IH |- *.
    intros [k v] Hkv. pose proof (IH _ Hkv (Hn _ Hkv)) as E.
    cbn [snd] in E. by rewrite E.
  - cbn [json_native recursively_convert_to_json_serializable]. intros Hn.
    rewrite mapM_id; [done|].
    rewrite forallb_forall in Hn. rewrite List.Forall_forall in IH |- *.
    intros v Hv. by apply IH, Hn.
Qed.

(** What a successful conversion returns is a value [json.dumps] takes. *)
Lemma conversion_result_native (v w : pyval) :
  recursively_convert_to_json_serializable v = Ok w -> json_native w = true.
Proof.
  revert w.
  induction v as [| | | | |items IH|l IH|l IH|l IH|l IH|l IH| | | | |]
    using pyval_ind; intros w;
    try (cbn [recursively_convert_to_json_serializable]; by intros [= <-]).
  - cbn [recursively_convert_to_json_serializable].
    destruct (mapM _ items) as [ws|] eqn:E; [|done]. intros [= <-].
    apply mapM_Forall2 in E. cbn [json_native]. apply forallb_forall.
    intros [k w] Hkw.
    induction E as [|[k0 v0] [k1 w1] items ws Hx _ IHE]; [done|].
    apply List.Forall_cons_iff in IH as [IH0 IH].
    destruct (recursively_convert_to_json_serializable v0) as [w0|] eqn:E0;
      [|done].
    injection Hx as <- <-. destruct Hkw as [[= <- <-]|Hkw].
    + by apply IH0.
    + by apply IHE.
  - cbn [recursively_convert_to_json_serializable].
    destruct (mapM _ l) as [ws|] eqn:E; [|done]. intros [= <-].
    apply mapM_Forall2 in E. cbn [json_native]. apply forallb_forall.
    intros w Hw. induction E as [|v0 w0 l ws Hx _ IHE]; [done|].
    apply List.Forall_cons_iff in IH as [IH0 IH].
    destruct Hw as [<-|Hw]; [by apply IH0|by apply IHE].
  - cbn [recursively_convert_to_json_serializable].
    destruct (mapM _ l) as [ws|] eqn:E; [|done]. intros [= <-].
    apply mapM_Forall2 in E. cbn [json_native]. apply forallb_forall.
    intros w Hw. induction E as [|v0 w0 l ws Hx _ IHE]; [done|].
    apply List.Forall_cons_iff in IH as [IH0 IH].
    destruct Hw as [<-|Hw]; [by apply IH0|by apply IHE].
  - cbn [recursively_convert_to_json_serializable].
    destruct (mapM _ l) as [ws|] eqn:E; [|done]. intros [= <-].
    apply mapM_Forall2 in E. cbn [json_native]. apply forallb_forall.
    intros w Hw. induction E as [|v0 w0 l ws Hx _ IHE]; [done|].
    apply List.Forall_cons_iff in IH as [IH0 IH].
    destruct Hw as [<-|Hw]; [by apply IH0|by apply IHE].
  - cbn [recursively_convert_to_json_serializable].
    destruct (mapM _ l) as [ws|] eqn:E; [|done]. intros [= <-].
    apply mapM_Forall2 in E. cbn [json_native]. apply forallb_forall.
    intros w Hw. induction E as [|v0 w0 l ws Hx _ IHE]; [done|].
    apply List.Forall_cons_iff in IH as [IH0 IH].
    destruct Hw as [<-|Hw]; [by apply IH0|by apply IHE].
  - cbn [recursively_convert_to_json_serializable].
    destruct (mapM _ l) as [ws|] eqn:E; [|done]. intros [= <-].
    apply mapM_Forall2 in E. cbn [json_native]. apply forallb_forall.
    intros w Hw. induction E as [|v0 w0 l ws Hx _ IHE]; [done|].
    apply List.Forall_cons_iff in IH as [IH0 IH].
    destruct Hw as [<-|Hw]; [by apply IH0|by apply IHE].
Qed.

Lemma Forall2_from_Forall {A B} (P Q : A -> B -> Prop) (l : list A) (l' : list B) :
  Forall (fun x => forall y, P x y -> Q x y) l -> Forall2 P l l' -> Forall2 Q l l'.
Proof.
  intros Hl H2. induction H2 as [|x y l l' Hxy _ IH]; [constructor|].
  apply List.Forall_cons_iff in Hl as [Hx Hl]. constructor; [by apply Hx|by apply IH].
Qed.

(** What a successful conversion returns is the image of the value. *)
Lemma conversion_image (v w : pyval) :
  recursively_convert_to_json_serializable v = Ok w -> json_image v w.
Proof.
  revert w.
  induction v as [| | | | |items IH|l IH|l IH|l IH|l IH|l IH| | | | |]
    using pyval_ind; intros w;
    try (cbn [recursively_convert_to_json_serializable]; intros [= <-];
         by constructor);
    cbn [recursively_convert_to_json_serializable];
    try (destruct (mapM _ l) as [ws|] eqn:E; [|done]; intros [= <-];
         apply mapM_Forall2 in E; constructor;
         by apply (Forall2_from_Forall _ _ _ _ IH E)).
  - destruct (mapM _ items) as [ws|] eqn:E; [|done]. intros [= <-].
    apply mapM_Forall2 in E. constructor.
    induction E as [|[k v] [k' v'] items ws Hx _ IHE]; [constructor|].
    apply List.Forall_cons_iff in IH as [IH0 IH].
    destruct (recursively_convert_to_json_serializable v) as [v0|] eqn:Ev;
      [|done].
    injection Hx as <- <-. constructor; [|by apply IHE].
    split; [done|]. by apply IH0.
Qed.

(** The image of a value is what its conversion returns. *)
Lemma image_conversion (v w : pyval) :
  json_image v w -> recursively_convert_to_json_serializable v = Ok w.
Proof.
  revert w.
  induction v as [| | | | |items IH|l IH|l IH|l IH|l IH|l IH| | | | |]
    using pyval_ind; intros w Hw; inversion Hw as
      [| | | | | | | | |? items' Hi|? l' Hl|? l' Hl|? l' Hl|? l' Hl|? l' Hl];
    subst; try done;
    cbn [recursively_convert_to_json_serializable];
    try (assert (mapM recursively_convert_to_json_serializable l = Ok l') as ->
           by (apply mapM_Forall2; by apply (Forall2_from_Forall _ _ _ _ IH Hl));
         done).
  assert (mapM (fun kv : string * pyval =>
                  let '(key, val) := kv in
                  rbind (recursively_convert_to_json_serializable val)
                        (fun v => Ok (key, v))) items = Ok items') as ->; [|done].
  apply mapM_Forall2. clear Hw.
  induction Hi as [|[k v] [k' v'] items items' [Hk Hv] _ IHi]; [constructor|].
  apply List.Forall_cons_iff in IH as [IH0 IH]. cbn [fst snd] in *. subst k'.
  constructor; [|by apply IHi].
  by rewrite (IH0 _ Hv).
Qed.

(** C9: the conversion succeeds exactly on the values built from strings,
    integers, floats, booleans, None, dicts, lists, tuples, sets, numpy
    arrays, pandas indexes, [np.int64], [np.float64], dates and times, and
    what it returns is then the image of the value, a value [json.dumps]
    takes: each such scalar is kept, [np.int64] becomes the integer,
    dates and times their [str()], dicts keep their keys, and every
    sequence becomes the list of its converted elements.  A value that
    holds an object of any other class fails with a [TypeError] whose
    message gives the [str()] of such an object and the name of its type. *)
Theorem recursively_convert_to_json_serializable_spec (test_obj : pyval) :
  (forall w, recursively_convert_to_json_serializable test_obj = Ok w
             <-> json_image test_obj w) /\
  conversion_spec test_obj (recursively_convert_to_json_serializable test_obj).
Proof.
  split.
  - intros w. split; [apply conversion_image|apply image_conversion].
  - apply conversion_spec_holds.
Qed.

(** C9, as stated: [np.int32(3)] is a numpy scalar, and its conversion
    fails. *)
Lemma numpy_int32_not_serialized :
  recursively_convert_to_json_serializable np_int32_three
  = Raise (TypeError "3 is of type int32 which cannot be serialized.").
Proof. reflexivity. Qed.

(** The values that come back equal are exactly those built only from
    None, booleans, integers, floats, strings, dicts and lists. *)
Theorem recursively_convert_to_json_serializable_native (v : pyval) :
  recursively_convert_to_json_serializable v = Ok v <-> json_native v = true.
Proof.
  split.
  - apply conversion_result_native.
  - apply json_native_fixed.
Qed.

(** Converting the result of a conversion once more changes nothing. *)
Theorem recursively_convert_to_json_serializable_idempotent (v w : pyval) :
  recursively_convert_to_json_serializable v = Ok w ->
  recursively_convert_to_json_serializable w = Ok w.
Proof.
  intros H. apply json_native_fixed. by eapply conversion_result_native.
Qed.

Lemma recursively_convert_to_json_serializable_idempotent_witness :
  let v := PyTuple [NpInt64 3; PyDate "2018-01-01"; PySet [PyNone]] in
  let w := PyList [PyInt 3; PyStr "2018-01-01"; PyList [PyNone]] in
  recursively_convert_to_json_serializable w = Ok w.
Proof.
  intros v w.
  apply (recursively_convert_to_json_serializable_idempotent v w).
  reflexivity.
Defined.

(** A dict is converted into a dict with the same keys in the same order,
    each value being the conversion of the value under that key. *)
Theorem recursively_convert_to_json_serializable_dict
    (items : list (string * pyval)) (w : pyval) :
  recursively_convert_to_json_serializable (PyDict items) = Ok w ->
  exists items',
    w = PyDict items' /\
    List.map fst items' = List.map fst items /\
    Forall2 (fun kv kv' =>
               recursively_convert_to_json_serializable kv.2 = Ok kv'.2)
            items items'.
Proof.
  cbn [recursively_convert_to_json_serializable].
  destruct (mapM _ items) as [ws|] eqn:E; [|done]. intros [= <-].
  exists ws. split; [done|]. apply mapM_Forall2 in E.
  induction E as [|[k v] [k' v'] items ws Hx _ [IH1 IH2]]; [done|].
  destruct (recursively_convert_to_json_serializable v) as [v0|] eqn:Ev; [|done].
  injection Hx as <- <-. cbn [List.map fst]. rewrite IH1.
  split; [done|]. by constructor.
Qed.

Lemma recursively_convert_to_json_serializable_dict_witness :
  exists items',
    PyDict [("n", PyInt 7); ("when", PyStr "2018-01-01")] = PyDict items' /\
    List.map fst items' = List.map fst [("n", NpInt64 7); ("when", PyDate "2018-01-01")] /\
    Forall2 (fun kv kv' =>
               recursively_convert_to_json_serializable kv.2 = Ok kv'.2)
            [("n", NpInt64 7); ("when", PyDate "2018-01-01")] items'.
Proof.
  apply (recursively_convert_to_json_serializable_dict
           [("n", NpInt64 7); ("when", PyDate "2018-01-01")]).
  reflexivity.
Defined.

(** A list, tuple, set, numpy array or pandas index is converted into a
    list of the same length, holding the conversions of its elements in
    iteration order. *)
Theorem recursively_convert_to_json_serializable_sequence
    (l : list pyval) (v w : pyval) :
  v = PyList l \/ v = PyTuple l \/ v = PySet l \/ v = NpArray l \/ v = PdIndex l ->
  recursively_convert_to_json_serializable v = Ok w ->
  exists l',
    w = PyList l' /\
    length l' = length l /\
    Forall2 (fun x y => recursively_convert_to_json_serializable x = Ok y) l l'.
Proof.
  intros [->|[->|[->|[->| ->]]]];
    cbn [recursively_convert_to_json_serializable];
    (destruct (mapM _ l) as [ws|] eqn:E; [|done]); intros [= <-];
    exists ws; (split; [done|]);
    (split; [by eapply mapM_length|by apply mapM_Forall2]).
Qed.

Lemma recursively_convert_to_json_serializable_sequence_witness :
  exists l',
    PyList [PyInt 1; PyInt 2] = PyList l' /\
    length l' = length [NpInt64 1; NpInt64 2] /\
    Forall2 (fun x y => recursively_convert_to_json_serializable x = Ok y)
      [NpInt64 1; NpInt64 2] l'.
Proof.
  apply (recursively_convert_to_json_serializable_sequence
           [NpInt64 1; NpInt64 2] (PySet [NpInt64 1; NpInt64 2])).
  - right. right. left. reflexivity.
  - reflexivity.
Defined.

(** ** Properties of the other validators *)

Section PartitionValidatorProperties.
Local Open Scope Q_scope.

(** For a "values" entry of length [n] and a "weights" array [w], the
    categorical validator answers [True] exactly when [n] is the length of
    [w] and [w] adds up to 1 within the tolerance of [np.allclose]; no
    object, or one without "values" or without "weights", is answered
    [False]. *)
Theorem is_valid_categorical_partition_object_iff
    (d : gmap string pyval) (values weights : pyval) (n : nat) (w : list Q) :
  py_len values = Ok n ->
  as_float_array weights = Ok w ->
  is_valid_categorical_partition_object None = Ok false /\
  is_valid_categorical_partition_object (Some (delete "values" d)) = Ok false /\
  is_valid_categorical_partition_object (Some (delete "weights" d)) = Ok false /\
  exists r : bool,
    is_valid_categorical_partition_object
      (Some (<["values" := values]> (<["weights" := weights]> d))) = Ok r /\
    (r = true <->
     n = length w /\ Qabs (np_sum w - 1) <= (1 # 100000000) + (1 # 100000)).
Proof.
  intros Hv Hw. split; [done|]. split; [|split].
  - unfold is_valid_categorical_partition_object.
    rewrite (lookup_delete_eq d "values"). by destruct (_ !! "weights").
  - unfold is_valid_categorical_partition_object.
    by rewrite (lookup_delete_eq d "weights").
  - unfold is_valid_categorical_partition_object.
    rewrite lookup_insert_ne by done. rewrite !lookup_insert_eq.
    rewrite Hv, (as_float_array_len _ _ Hw). cbn [rbind].
    destruct (n =? length w)%nat eqn:El.
    + apply Nat.eqb_eq in El. rewrite Hw. cbn [rbind].
      destruct (np_allclose (np_sum w) 1) eqn:Es.
      * apply np_allclose_one in Es. by exists true.
      * exists false. split; [done|]. split; [done|].
        intros [_ Hs]. apply np_allclose_one in Hs. congruence.
    + apply Nat.eqb_neq in El. exists false. split; [done|]. split; [done|].
      by intros [Hl _].
Qed.

(** An object without "weights" is not a partition object, and neither is
    [None]: both validators answer [False] without looking further. *)
Theorem is_valid_partition_object_without_weights (d : gmap string pyval) :
  is_valid_partition_object None = Ok false /\
  is_valid_partition_object (Some (delete "weights" d)) = Ok false.
Proof.
  split; [done|]. unfold is_valid_partition_object,
    is_valid_continuous_partition_object, is_valid_categorical_partition_object.
  by rewrite (lookup_delete_eq d "weights").
Qed.

(** An object without "values" is judged as a continuous partition, one
    without "bins" as a categorical partition: result and exception are
    those of that validator. *)
Theorem is_valid_partition_object_dispatch (d : gmap string pyval) :
  is_valid_partition_object (Some (delete "values" d))
  = is_valid_continuous_partition_object (Some (delete "values" d)) /\
  is_valid_partition_object (Some (delete "bins" d))
  = is_valid_categorical_partition_object (Some (delete "bins" d)).
Proof.
  split; unfold is_valid_partition_object.
  - destruct (is_valid_continuous_partition_object _) as [[|]|e]; [done| |done].
    cbn [rbind]. unfold is_valid_categorical_partition_object.
    rewrite (lookup_delete_eq d "values"). by destruct (_ !! "weights").
  - assert (is_valid_continuous_partition_object (Some (delete "bins" d))
            = Ok false) as ->.
    { unfold is_valid_continuous_partition_object.
      rewrite (lookup_delete_eq d "bins"). by destruct (_ !! "weights"). }
    cbn [rbind].
    by destruct (is_valid_categorical_partition_object _) as [[|]|e].
Qed.
End PartitionValidatorProperties.

Lemma is_valid_categorical_partition_object_iff_witness :
  let values := PyList [PyStr "a"; PyStr "b"] in
  let weights := PyList [PyFloat (3 # 4); PyFloat (1 # 4)] in
  is_valid_categorical_partition_object None = Ok false /\
  is_valid_categorical_partition_object (Some (delete "values" ∅)) = Ok false /\
  is_valid_categorical_partition_object (Some (delete "weights" ∅)) = Ok false /\
  exists r : bool,
    is_valid_categorical_partition_object
      (Some (<["values" := values]> (<["weights" := weights]> ∅))) = Ok r /\
    (r = true <->
     2%nat = length [3 # 4; 1 # 4]%Q /\
     (Qabs (np_sum [3 # 4; 1 # 4] - 1) <= (1 # 100000000) + (1 # 100000))%Q).
Proof.
  intros values weights.
  apply (is_valid_categorical_partition_object_iff ∅ values weights 2
           [3 # 4; 1 # 4]%Q); reflexivity.
Defined.

(** ** The partition functions and the validators together *)

Section PartitionsAreValid.
Local Open Scope Q_scope.

Lemma as_float_array_floats (l : list Q) :
  as_float_array (NpArray (List.map NpFloat64 l)) = Ok l.
Proof.
  cbn [as_float_array]. induction l as [|x l IH]; [done|].
  cbn [List.map mapM as_float rbind]. by rewrite IH.
Qed.

Lemma valid_continuous_accepted (b w : list Q) :
  valid_continuous b w ->
  is_valid_continuous_partition_object (Some (continuous_partition_object b w))
  = Ok true.
Proof.
  intros (Hl & Hs & Hsum).
  unfold is_valid_continuous_partition_object, continuous_partition_object.
  rewrite lookup_insert_ne by done. rewrite !lookup_insert_eq.
  cbn [py_len rbind]. rewrite !length_map.
  assert ((length b =? length w + 1)%nat = true) as -> by (apply Nat.eqb_eq; lia).
  rewrite !as_float_array_floats. cbn [rbind].
  apply np_diff_pos_sorted in Hs. rewrite Hs.
  apply np_allclose_one in Hsum. by rewrite Hsum.
Qed.

Lemma valid_categorical_accepted (values : list pyval) (w : list Q) :
  length values = length w -> np_sum w == 1 ->
  is_valid_categorical_partition_object
    (Some (categorical_partition_object values w)) = Ok true.
Proof.
  intros Hl Hsum.
  unfold is_valid_categorical_partition_object, categorical_partition_object.
  rewrite lookup_insert_ne by done. rewrite !lookup_insert_eq.
  cbn [py_len rbind]. rewrite length_map.
  assert ((length values =? length w)%nat = true) as -> by (by apply Nat.eqb_eq).
  rewrite as_float_array_floats. cbn [rbind].
  assert (np_allclose (np_sum w) 1 = true) as ->; [|done].
  apply np_allclose_one. rewrite Hsum. vm_compute. discriminate.
Qed.

(** The weights of a histogram whose edges enclose the whole sample add up
    to 1. *)
Lemma histogram_weights_sum (data : list Q) (a : Q) (rest : list Q) :
  data <> [] -> rest <> [] -> monotonic (a :: rest) = true ->
  Forall (fun x => a <= x <= List.last rest a) data ->
  np_sum (List.map (fun c => inject_Z (Z.of_nat c)
                             / inject_Z (Z.of_nat (length data)))
            (histogram_counts data (a :: rest))) == 1.
Proof.
  intros Hd Hr Hm Hin. rewrite np_sum_divide, histogram_counts_sum by done.
  rewrite count_if_all.
  - destruct data as [|x data]; [done|].
    field. change 0 with (inject_Z 0). rewrite inject_Z_injective.
    cbn [length]. lia.
  - eapply Forall_impl; [exact Hin|]. intros x [H1 H2].
    apply andb_true_iff. by rewrite !Qle_bool_iff.
Qed.

(** On the dict of two arrays of floats the validator answers, and answers
    [True] exactly for a valid pair. *)
Lemma valid_continuous_decided (b w : list Q) :
  exists r : bool,
    is_valid_continuous_partition_object (Some (continuous_partition_object b w))
    = Ok r /\
    is_valid_partition_object (Some (continuous_partition_object b w)) = Ok r /\
    (r = true <-> valid_continuous b w).
Proof.
  assert (forall r : bool,
            is_valid_continuous_partition_object
              (Some (continuous_partition_object b w)) = Ok r ->
            is_valid_partition_object (Some (continuous_partition_object b w))
            = Ok r) as Hboth.
  { intros r Hr. unfold is_valid_partition_object. rewrite Hr. cbn [rbind].
    destruct r; [done|].
    unfold is_valid_categorical_partition_object, continuous_partition_object.
    rewrite lookup_insert_ne by done. rewrite lookup_insert_eq.
    rewrite !lookup_insert_ne by done. by rewrite lookup_empty. }
  destruct (decide (length b = S (length w))) as [Hl|Hl].
  - destruct (forallb (fun d => Qlt_bool 0 d) (np_diff b)) eqn:Ed.
    + destruct (np_allclose (np_sum w) 1) eqn:Es.
      * exists true.
        assert (valid_continuous b w) as Hv.
        { split; [done|]. split; [by apply np_diff_pos_sorted|].
          by apply np_allclose_one. }
        pose proof (valid_continuous_accepted b w Hv) as Hr.
        split; [exact Hr|]. split; [by apply Hboth|done].
      * exists false.
        assert (is_valid_continuous_partition_object
                  (Some (continuous_partition_object b w)) = Ok false) as Hr.
        { unfold is_valid_continuous_partition_object, continuous_partition_object.
          rewrite lookup_insert_ne by done. rewrite !lookup_insert_eq.
          cbn [py_len rbind]. rewrite !length_map.
          assert ((length b =? length w + 1)%nat = true) as ->
            by (apply Nat.eqb_eq; lia).
          rewrite !as_float_array_floats. cbn [rbind]. by rewrite Ed, Es. }
        split; [exact Hr|]. split; [by apply Hboth|]. split; [done|].
        intros (_ & _ & Hs). apply np_allclose_one in Hs. congruence.
    + exists false.
      assert (is_valid_continuous_partition_object
                (Some (continuous_partition_object b w)) = Ok false) as Hr.
      { unfold is_valid_continuous_partition_object, continuous_partition_object.
        rewrite lookup_insert_ne by done. rewrite !lookup_insert_eq.
        cbn [py_len rbind]. rewrite !length_map.
        assert ((length b =? length w + 1)%nat = true) as ->
          by (apply Nat.eqb_eq; lia).
        rewrite !as_float_array_floats. cbn [rbind]. by rewrite Ed. }
      split; [exact Hr|]. split; [by apply Hboth|]. split; [done|].
      intros (_ & Hs & _). apply np_diff_pos_sorted in Hs. congruence.
  - exists false.
    assert (is_valid_continuous_partition_object
              (Some (continuous_partition_object b w)) = Ok false) as Hr.
    { unfold is_valid_continuous_partition_object, continuous_partition_object.
      rewrite lookup_insert_ne by done. rewrite !lookup_insert_eq.
      cbn [py_len rbind]. rewrite !length_map.
      assert ((length b =? length w + 1)%nat = false) as ->
        by (apply Nat.eqb_neq; lia).
      done. }
    split; [exact Hr|]. split; [by apply Hboth|]. split; [done|].
    by intros (? & _).
Qed.

(** What 'uniform' mode returns on a sample that is not empty, for at
    least one bin, has one more edge than weights and weights that add up
    to 1, so [is_valid_continuous_partition_object], and with it
    [is_valid_partition_object], accepts it exactly when its edges increase
    strictly; on a constant sample they do not, and it is rejected. *)
Theorem continuous_partition_data_uniform_validity
    (au : list Q -> list Q) (data : list Q) (n_bins : Z) (mn mx : Q) :
  np_min data = Ok mn ->
  np_max data = Ok mx ->
  (1 <= n_bins)%Z ->
  exists (edges weights : list Q) (r : bool),
    continuous_partition_data au data "uniform" n_bins
    = Ok (mk_continuous (List.map Fin edges) weights) /\
    is_valid_continuous_partition_object
      (Some (continuous_partition_object edges weights)) = Ok r /\
    is_valid_partition_object
      (Some (continuous_partition_object edges weights)) = Ok r /\
    (r = true <-> Sorted Qlt edges) /\
    (mn == mx -> r = false).
Proof.
  intros Hmn Hmx Hn.
  assert (data <> []) as Hd by (by destruct data).
  pose proof (np_min_le_np_max data mn mx Hmn Hmx) as Hle.
  assert (0 <= (mx - mn) / inject_Z (n_bins + 1 - 1)) as Hstep.
  { replace (n_bins + 1 - 1)%Z with n_bins by lia.
    apply Qle_shift_div_l; [|lra].
    change 0 with (inject_Z 0). rewrite <- Zlt_Qlt. lia. }
  set (pt := linspace_point mn mx (n_bins + 1)).
  set (edges := List.map pt (seq 0 (Z.to_nat (n_bins + 1)))).
  assert (Z.to_nat (n_bins + 1) = S (Z.to_nat n_bins)) as Hnum by lia.
  assert (edges = pt 0%nat :: List.map pt (seq 1 (Z.to_nat n_bins))) as Hedges.
  { unfold edges. by rewrite Hnum. }
  assert (monotonic edges = true) as Hmono by (by apply monotonic_linspace).
  assert (Z.to_nat n_bins <> 0%nat) as Hk by lia.
  set (weights := List.map (fun c => inject_Z (Z.of_nat c)
                                     / inject_Z (Z.of_nat (length data)))
                    (histogram_counts data edges)).
  assert (continuous_partition_data au data "uniform" n_bins
          = Ok (mk_continuous (List.map Fin edges) weights)) as Hcall.
  { unfold continuous_partition_data.
    change (String.eqb "uniform" "uniform") with true. cbv iota.
    rewrite Hmn, Hmx. cbn [rbind]. unfold np_linspace.
    destruct (n_bins + 1 <? 0)%Z eqn:E; [lia|]. cbn [rbind].
    fold pt. fold edges. apply partition_of_edges; [done| |done].
    by rewrite Hedges. }
  assert (length edges = S (length weights)) as Hlen.
  { unfold weights. by rewrite length_map, Hedges, histogram_counts_length. }
  assert (np_sum weights == 1) as Hsum.
  { unfold weights. rewrite Hedges. apply histogram_weights_sum.
    - done.
    - by destruct (Z.to_nat n_bins).
    - by rewrite <- Hedges.
    - rewrite seq_last_point.
      pose proof (np_min_lower data mn Hmn) as Hlo.
      pose proof (np_max_upper data mx Hmx) as Hhi.
      rewrite List.Forall_forall in Hlo, Hhi |- *. intros x Hx. unfold pt.
      rewrite linspace_point_first, linspace_point_last by done.
      split; [by apply Hlo|by apply Hhi]. }
  destruct (valid_continuous_decided edges weights) as (r & Hr1 & Hr2 & Hr).
  exists edges, weights, r.
  split; [exact Hcall|]. split; [exact Hr1|]. split; [exact Hr2|].
  assert (r = true <-> Sorted Qlt edges) as Hiff.
  { rewrite Hr. unfold valid_continuous. split; [by intros (_ & ? & _)|].
    intros Hs. split; [done|]. split; [done|].
    rewrite Hsum. vm_compute. discriminate. }
  split; [exact Hiff|].
  intros Heq. destruct r; [|done]. exfalso.
  assert (Sorted Qlt edges) as Hs by (by apply Hiff).
  assert (forall i, pt i == mn) as Hpt.
  { intros i. unfold pt, linspace_point. rewrite Heq. unfold Qdiv. ring. }
  rewrite Hedges in Hs. destruct (Z.to_nat n_bins) as [|k]; [done|].
  cbn [seq List.map] in Hs.
  apply Sorted_inv in Hs as [_ Hhd]. inversion Hhd as [|? ? Hlt]; subst.
  rewrite !Hpt in Hlt. lra.
Qed.
End PartitionsAreValid.

Lemma continuous_partition_data_uniform_validity_witness :
  exists (edges weights : list Q) (r : bool),
    continuous_partition_data (fun _ => []) [5; 5; 5]%Q "uniform" 2
    = Ok (mk_continuous (List.map Fin edges) weights) /\
    is_valid_continuous_partition_object
      (Some (continuous_partition_object edges weights)) = Ok r /\
    is_valid_partition_object
      (Some (continuous_partition_object edges weights)) = Ok r /\
    (r = true <-> Sorted Qlt edges) /\
    ((5 == 5)%Q -> r = false).
Proof.
  apply (continuous_partition_data_uniform_validity
           (fun _ => []) [5; 5; 5]%Q 2 5%Q 5%Q);
    [reflexivity | reflexivity | lia].
Defined.

(** ** Further properties of [categorical_partition_data] *)

Section ValueCounts.
Context {V : Type} `{EqDecision V}.

Lemma In_dropna (data : list (option V)) (v : V) :
  In v (dropna data) <-> In (Some v) data.
Proof.
  induction data as [|[x|] data IH]; cbn [dropna In].
  - done.
  - rewrite IH. split; (intros [Hx|Hin]; [left; congruence|by right]).
  - rewrite IH. split; [by right|]. by intros [?|?].
Qed.

Lemma In_unique (l : list V) (v : V) : In v (unique l) <-> In v l.
Proof.
  induction l as [|x l IH]; [done|]. cbn [unique In].
  rewrite filter_In, IH, negb_true_iff, bool_decide_eq_false.
  destruct (decide (v = x)) as [->|Hne]; [by split; left|].
  split; [intros [?|[? _]]; by auto|intros [?|?]; [by left|by right]].
Qed.

Lemma NoDup_unique (l : list V) : List.NoDup (unique l).
Proof.
  induction l as [|x l IH]; cbn [unique]; constructor.
  - rewrite filter_In, negb_true_iff, bool_decide_eq_false. by intros [_ ?].
  - by apply List.NoDup_filter.
Qed.

(** Counting, for each distinct value, how often it occurs counts every
    element once. *)
Lemma occurrences_sum (u m : list V) :
  List.NoDup u ->
  list_sum (List.map (fun v => occurrences v m) u)
  = length (List.filter (fun y => bool_decide (y ∈ u)) m).
Proof.
  induction 1 as [|v u Hv Hu IH].
  - cbn [List.map list_sum]. induction m as [|y m IHm]; [done|].
    cbn [List.filter]. by rewrite bool_decide_eq_false_2 by set_solver.
  - cbn [List.map]. change (list_sum (?x :: ?l)) with (x + list_sum l)%nat.
    rewrite IH. clear IH. unfold occurrences.
    rewrite <- list_elem_of_In in Hv.
    induction m as [|y m IHm]; [done|]. cbn [List.filter].
    destruct (decide (y = v)) as [->|Hne].
    + rewrite (bool_decide_eq_true_2 (v = v)) by done.
      rewrite (bool_decide_eq_false_2 (v ∈ u)) by done.
      rewrite (bool_decide_eq_true_2 (v ∈ v :: u)) by set_solver.
      cbn [length]. lia.
    + rewrite (bool_decide_eq_false_2 (y = v)) by done.
      destruct (decide (y ∈ u)) as [Hin|Hnin].
      * rewrite (bool_decide_eq_true_2 (y ∈ u)) by done.
        rewrite (bool_decide_eq_true_2 (y ∈ v :: u)) by set_solver.
        cbn [length]. lia.
      * rewrite (bool_decide_eq_false_2 (y ∈ u)) by done.
        rewrite (bool_decide_eq_false_2 (y ∈ v :: u))
          by (rewrite elem_of_cons; by intros [?|?]).
        lia.
Qed.

Lemma occurrences_unique_sum (l : list V) :
  list_sum (List.map (fun v => occurrences v l) (unique l)) = length l.
Proof.
  rewrite occurrences_sum by apply NoDup_unique.
  assert (forall u m : list V, (forall y, In y m -> In y u) ->
            List.filter (fun y => bool_decide (y ∈ u)) m = m) as Hall.
  { intros u m. induction m as [|y m IHm]; intros Hm; [done|]. cbn [List.filter].
    rewrite bool_decide_eq_true_2
      by (apply list_elem_of_In, Hm; by left).
    f_equal. apply IHm. intros z Hz. apply Hm. by right. }
  rewrite Hall; [done|]. intros y Hy. by apply In_unique.
Qed.

Lemma insert_desc_Permutation (p : V * nat) (l : list (V * nat)) :
  Permutation (insert_desc p l) (p :: l).
Proof.
  induction l as [|q l IH]; [done|]. cbn [insert_desc].
  destruct (q.2 <=? p.2)%nat; [done|].
  rewrite IH. apply perm_swap.
Qed.

Lemma value_counts_Permutation (data : list (option V)) :
  Permutation (value_counts data)
    (List.map (fun v => (v, occurrences v (dropna data))) (unique (dropna data))).
Proof.
  unfold value_counts.
  induction (List.map _ (unique (dropna data))) as [|p l IH]; [done|].
  cbn [fold_right]. by rewrite insert_desc_Permutation, IH.
Qed.

Lemma list_sum_Permutation (l l' : list nat) :
  Permutation l l' -> list_sum l = list_sum l'.
Proof.
  induction 1 as [|x l l' _ IH|x y l|l l' l'' _ IH1 _ IH2]; cbn [list_sum fold_right];
    [done| |lia|congruence].
  change (fold_right Init.Nat.add 0%nat ?l) with (list_sum l). lia.
Qed.

Lemma insert_desc_Sorted (p : V * nat) (l : list (V * nat)) :
  Sorted (fun a b : V * nat => (b.2 <= a.2)%nat) l ->
  Sorted (fun a b : V * nat => (b.2 <= a.2)%nat) (insert_desc p l).
Proof.
  induction l as [|q l IH]; intros Hs; cbn [insert_desc].
  - by repeat constructor.
  - destruct (q.2 <=? p.2)%nat eqn:E.
    + apply Nat.leb_le in E. constructor; [done|]. by constructor.
    + apply Nat.leb_gt in E. apply Sorted_inv in Hs as [Hs Hhd].
      constructor; [by apply IH|].
      destruct l as [|r l]; cbn [insert_desc].
      * constructor. lia.
      * destruct (r.2 <=? p.2)%nat; constructor; [lia|].
        by inversion Hhd.
Qed.

Lemma value_counts_Sorted (data : list (option V)) :
  Sorted (fun a b : V * nat => (b.2 <= a.2)%nat) (value_counts data).
Proof.
  unfold value_counts.
  induction (List.map _ (unique (dropna data))) as [|p l IH]; [constructor|].
  cbn [fold_right]. by apply insert_desc_Sorted.
Qed.

Lemma value_counts_values (data : list (option V)) :
  Permutation (List.map fst (value_counts data)) (unique (dropna data)).
Proof.
  rewrite (Permutation_map fst (value_counts_Permutation data)).
  rewrite List.map_map. cbn [fst]. by rewrite List.map_id.
Qed.

Lemma value_counts_total (data : list (option V)) :
  list_sum (List.map snd (value_counts data)) = length (dropna data).
Proof.
  rewrite (list_sum_Permutation _ _
             (Permutation_map snd (value_counts_Permutation data))).
  rewrite List.map_map. cbn [snd]. apply occurrences_unique_sum.
Qed.

Lemma value_counts_occurrences (data : list (option V)) :
  Forall (fun p : V * nat => p.2 = occurrences p.1 (dropna data))
    (value_counts data).
Proof.
  eapply Permutation_Forall; [symmetry; apply value_counts_Permutation|].
  apply List.Forall_forall. intros p Hp.
  apply in_map_iff in Hp as (v & <- & _). done.
Qed.

(** What the function returns on a sample with at least one value that is
    not null. *)
Lemma categorical_partition_data_unfold (data : list (option V)) :
  dropna data <> [] ->
  categorical_partition_data data
  = Ok (mk_categorical (List.map fst (value_counts data))
          (List.map (fun c => inject_Z (Z.of_nat c)
                              / inject_Z (Z.of_nat (length (dropna data))))%Q
             (List.map snd (value_counts data)))).
Proof.
  intros Hne. unfold categorical_partition_data.
  rewrite nonnull_count_dropna.
  destruct (dropna data) as [|v present]; [done|]. reflexivity.
Qed.

(** On a sample with at least one value that is not null there are as many
    weights as values, the weights add up to 1, and the returned object is
    accepted by [is_valid_categorical_partition_object] and by
    [is_valid_partition_object]; [to_py] is how a value of the sample
    shows as a Python object. *)
Theorem categorical_partition_data_is_valid
    (to_py : V -> pyval) (data : list (option V)) :
  dropna data <> [] ->
  exists (values : list V) (weights : list Q),
    categorical_partition_data data = Ok (mk_categorical values weights) /\
    length values = length weights /\
    (np_sum weights == 1)%Q /\
    is_valid_categorical_partition_object
      (Some (categorical_partition_object (List.map to_py values) weights))
    = Ok true /\
    is_valid_partition_object
      (Some (categorical_partition_object (List.map to_py values) weights))
    = Ok true.
Proof.
  intros Hne. eexists _, _.
  split; [by apply categorical_partition_data_unfold|].
  assert (length (List.map fst (value_counts data))
          = length (List.map (fun c => inject_Z (Z.of_nat c)
                       / inject_Z (Z.of_nat (length (dropna data))))%Q
                      (List.map snd (value_counts data)))) as Hlen
    by (by rewrite !length_map).
  assert (np_sum (List.map (fun c => inject_Z (Z.of_nat c)
                       / inject_Z (Z.of_nat (length (dropna data))))%Q
                    (List.map snd (value_counts data))) == 1)%Q as Hsum.
  { rewrite np_sum_divide, value_counts_total.
    destruct (dropna data) as [|v present]; [done|].
    field. change 0%Q with (inject_Z 0). rewrite inject_Z_injective.
    cbn [length]. lia. }
  split; [exact Hlen|]. split; [exact Hsum|].
  assert (is_valid_categorical_partition_object
            (Some (categorical_partition_object
                     (List.map to_py (List.map fst (value_counts data)))
                     (List.map (fun c => inject_Z (Z.of_nat c)
                        / inject_Z (Z.of_nat (length (dropna data))))%Q
                        (List.map snd (value_counts data))))) = Ok true)
    as Hvalid.
  { apply valid_categorical_accepted; [|exact Hsum]. by rewrite !length_map. }
  split; [exact Hvalid|].
  unfold is_valid_partition_object. rewrite Hvalid.
  unfold is_valid_continuous_partition_object, categorical_partition_object.
  rewrite lookup_insert_ne by done. rewrite lookup_insert_eq.
  rewrite !lookup_insert_ne by done. by rewrite lookup_empty.
Qed.

(** The values of the partition are the distinct values of the sample that
    are not null, each listed once. *)
Theorem categorical_partition_data_values (data : list (option V)) :
  exists p,
    categorical_partition_data data = Ok p /\
    List.NoDup (cat_values p) /\
    forall v, In v (cat_values p) <-> In (Some v) data.
Proof.
  assert (exists ws, categorical_partition_data data
                     = Ok (mk_categorical (List.map fst (value_counts data)) ws))
    as [ws Hcall].
  { destruct (dropna data) as [|v present] eqn:E.
    - exists []. rewrite categorical_partition_data_empty by done.
      unfold value_counts. by rewrite E.
    - eexists. apply categorical_partition_data_unfold. by rewrite E. }
  eexists. split; [exact Hcall|]. cbn [cat_values]. split.
  - eapply Permutation_NoDup;
      [symmetry; apply value_counts_values|apply NoDup_unique].
  - intros v. split.
    + intros Hv. apply In_dropna, In_unique.
      by apply (Permutation_in _ (value_counts_values data)).
    + intros Hv. apply In_dropna, In_unique in Hv.
      by apply (Permutation_in _ (Permutation_sym (value_counts_values data))).
Qed.

(** Each weight is the number of occurrences of its value divided by the
    number of values that are not null, and the weights do not increase
    along the partition. *)
Theorem categorical_partition_data_weights (data : list (option V)) :
  dropna data <> [] ->
  exists (values : list V) (weights : list Q),
    categorical_partition_data data = Ok (mk_categorical values weights) /\
    Forall2 (fun v w =>
               w == inject_Z (Z.of_nat (occurrences v (dropna data)))
                    / inject_Z (Z.of_nat (length (dropna data))))%Q
            values weights /\
    Sorted (fun a b => b <= a)%Q weights.
Proof.
  intros Hne. eexists _, _.
  split; [by apply categorical_partition_data_unfold|]. split.
  - pose proof (value_counts_occurrences data) as Hocc.
    induction Hocc as [|[v c] l Hp _ IH]; [constructor|].
    cbn [List.map fst snd] in *. constructor; [by rewrite Hp|exact IH].
  - pose proof (value_counts_Sorted data) as Hs.
    assert (0 < inject_Z (Z.of_nat (length (dropna data))))%Q as Hpos.
    { change 0%Q with (inject_Z 0). rewrite <- Zlt_Qlt.
      destruct (dropna data); [done|]. cbn [length]. lia. }
    induction Hs as [|[v c] l _ IH Hhd]; [constructor|].
    cbn [List.map snd]. constructor; [exact IH|].
    destruct Hhd as [|[v' c'] l' Hle]; cbn [List.map snd]; constructor.
    cbn [snd] in Hle. apply Qmult_le_compat_r.
    + rewrite <- Zle_Qle. lia.
    + apply Qlt_le_weak, Qinv_lt_0_compat, Hpos.
Qed.
End ValueCounts.

Lemma categorical_partition_data_is_valid_witness :
  exists (values : list string) (weights : list Q),
    categorical_partition_data [Some "a"; None; Some "b"; Some "a"]
    = Ok (mk_categorical values weights) /\
    length values = length weights /\
    (np_sum weights == 1)%Q /\
    is_valid_categorical_partition_object
      (Some (categorical_partition_object (List.map PyStr values) weights))
    = Ok true /\
    is_valid_partition_object
      (Some (categorical_partition_object (List.map PyStr values) weights))
    = Ok true.
Proof.
  apply (categorical_partition_data_is_valid PyStr
           [Some "a"; None; Some "b"; Some "a"]).
  discriminate.
Defined.

Lemma categorical_partition_data_weights_witness :
  let data := [Some "a"; None; Some "b"; Some "a"] in
  exists (values : list string) (weights : list Q),
    categorical_partition_data data = Ok (mk_categorical values weights) /\
    Forall2 (fun v w =>
               w == inject_Z (Z.of_nat (occurrences v (dropna data)))
                    / inject_Z (Z.of_nat (length (dropna data))))%Q
            values weights /\
    Sorted (fun a b => b <= a)%Q weights.
Proof.
  intros data. apply (categorical_partition_data_weights data). discriminate.
Defined.

(** ** Further properties of [kde_partition_data] *)

Section KdeBins.
Local Open Scope Q_scope.

(** The call spelled out, once the estimate is fitted. *)
Lemma kde_partition_data_unfold
    (gaussian_kde : list Q -> result gaussian_kde_obj)
    (data : list Q) (estimate_tails : bool) (kde : gaussian_kde_obj)
    (mn mx : Q) :
  gaussian_kde data = Ok kde ->
  0 < covariance_factor kde ->
  np_min data = Ok mn ->
  np_max data = Ok mx ->
  let f := covariance_factor kde in
  let cdf := integrate_box_1d_from_neg_inf kde in
  let num := Qfloor ((mx - mn) / f + 1) in
  let pt := linspace_point (mn - f / 2) (mx + f / 2) num in
  let grid := List.map pt (seq 1 (Z.to_nat num - 1)) in
  (1 <= num)%Z /\
  kde_partition_data gaussian_kde data estimate_tails
  = Ok (mk_continuous
          ((if estimate_tails then Fin (mn - (15 # 10) * f) else NegInf)
             :: List.map Fin (pt 0%nat :: grid)
             ++ [if estimate_tails then Fin (mx + (15 # 10) * f) else PosInf])
          (cdf (pt 0%nat) :: np_diff (List.map cdf (pt 0%nat :: grid))
             ++ [1 - cdf (List.last grid (pt 0%nat))])).
Proof.
  intros Hkde Hf Hmn Hmx f cdf num pt grid.
  pose proof (np_min_le_np_max data mn mx Hmn Hmx) as Hle.
  pose proof (kde_grid_size mn mx _ Hle Hf) as Hnum. fold f num in Hnum.
  split; [exact Hnum|].
  unfold kde_partition_data. rewrite Hkde, Hmn, Hmx. cbn [rbind].
  fold f num. unfold np_linspace.
  destruct (num <? 0)%Z eqn:E; [lia|]. cbn [rbind]. fold pt.
  assert (seq 0 (Z.to_nat num) = 0%nat :: seq 1 (Z.to_nat num - 1)) as ->.
  { destruct (Z.to_nat num) as [|k] eqn:Ek; [lia|].
    by replace (S k - 1)%nat with k by lia. }
  cbn [List.map]. fold grid. fold cdf. cbn [first_item last_item rbind].
  rewrite last_map. by destruct estimate_tails.
Qed.

Lemma sorted_le_snoc (x : Q) (l : list Q) (b : Q) :
  Sorted Qle (x :: l) -> List.last l x <= b -> Sorted Qle ((x :: l) ++ [b]).
Proof.
  revert x. induction l as [|y l IH]; intros x Hs Hb.
  - cbn [app]. repeat constructor. exact Hb.
  - apply Sorted_inv in Hs as [Hs Hhd]. rewrite last_cons_default in Hb.
    cbn [app]. constructor; [exact (IH y Hs Hb)|].
    constructor. by inversion Hhd.
Qed.

(** [estimate_tails] only chooses the two outer bin edges: finite ones, 1.5
    bandwidth factors beyond the minimum and the maximum of the sample, or
    minus and plus infinity.  The inner edges and all the weights are the
    same for both choices. *)
Theorem kde_partition_data_estimate_tails
    (gaussian_kde : list Q -> result gaussian_kde_obj)
    (data : list Q) (kde : gaussian_kde_obj) (mn mx : Q) :
  gaussian_kde data = Ok kde ->
  0 < covariance_factor kde ->
  np_min data = Ok mn ->
  np_max data = Ok mx ->
  exists inner weights : list Q,
    inner <> [] /\
    kde_partition_data gaussian_kde data true
    = Ok (mk_continuous
            (Fin (mn - (15 # 10) * covariance_factor kde)
               :: List.map Fin inner
               ++ [Fin (mx + (15 # 10) * covariance_factor kde)])
            weights) /\
    kde_partition_data gaussian_kde data false
    = Ok (mk_continuous (NegInf :: List.map Fin inner ++ [PosInf]) weights).
Proof.
  intros Hkde Hf Hmn Hmx.
  destruct (kde_partition_data_unfold gaussian_kde data true kde mn mx
              Hkde Hf Hmn Hmx) as [_ Ht].
  destruct (kde_partition_data_unfold gaussian_kde data false kde mn mx
              Hkde Hf Hmn Hmx) as [_ Hfalse].
  eexists _, _. split; [|split; [exact Ht|exact Hfalse]]. done.
Qed.

(** With [estimate_tails] the bin edges do not decrease, there is one more
    edge than weights and the weights add up to 1, so
    [is_valid_continuous_partition_object] accepts the partition exactly
    when its edges increase strictly. *)
Theorem kde_partition_data_validity
    (gaussian_kde : list Q -> result gaussian_kde_obj)
    (data : list Q) (kde : gaussian_kde_obj) :
  gaussian_kde data = Ok kde ->
  0 < covariance_factor kde ->
  data <> [] ->
  exists (bins weights : list Q) (r : bool),
    kde_partition_data gaussian_kde data true
    = Ok (mk_continuous (List.map Fin bins) weights) /\
    Sorted Qle bins /\
    length bins = S (length weights) /\
    np_sum weights == 1 /\
    is_valid_continuous_partition_object
      (Some (continuous_partition_object bins weights)) = Ok r /\
    (r = true <-> Sorted Qlt bins).
Proof.
  intros Hkde Hf Hd.
  destruct (np_min data) as [mn|] eqn:Hmn; [|by destruct data].
  destruct (np_max data) as [mx|] eqn:Hmx; [|by destruct data].
  pose proof (np_min_le_np_max data mn mx Hmn Hmx) as Hle.
  destruct (kde_partition_data_unfold gaussian_kde data true kde mn mx
              Hkde Hf Hmn Hmx) as [Hnum Hcall].
  set (f := covariance_factor kde) in *.
  set (cdf := integrate_box_1d_from_neg_inf kde) in *.
  set (num := Qfloor ((mx - mn) / f + 1)) in *.
  set (pt := linspace_point (mn - f / 2) (mx + f / 2) num) in *.
  set (k := (Z.to_nat num - 1)%nat) in *.
  set (grid := List.map pt (seq 1 k)) in *.
  assert (f / 2 == f * (1 # 2)) as Hhalf by reflexivity.
  assert (pt 0%nat == mn - f * (1 # 2)) as Hfirst
    by (rewrite <- Hhalf; apply linspace_point_first).
  assert (0 <= (mx + f / 2 - (mn - f / 2)) / inject_Z (num - 1)) as Hstep.
  { destruct (decide (num = 1%Z)) as [E|E].
    - rewrite E. unfold Qdiv. change (/ inject_Z (1 - 1)) with 0. lra.
    - apply Qle_shift_div_l.
      + change 0 with (inject_Z 0). rewrite <- Zlt_Qlt. lia.
      + rewrite Hhalf. lra. }
  assert (Sorted Qle (pt 0%nat :: grid)) as Hgrid.
  { change (pt 0%nat :: grid) with (List.map pt (seq 0 (S k))).
    by apply monotonic_Sorted, monotonic_linspace. }
  assert (List.last grid (pt 0%nat) <= mx + f * (1 # 2)) as Hlast.
  { destruct (decide (num = 1%Z)) as [E|E].
    - assert (k = 0%nat) as Hk by (unfold k; lia).
      unfold grid. rewrite Hk. cbn [seq List.map List.last].
      rewrite Hfirst. lra.
    - assert (1 <= num - 1)%Z as Hn1 by lia.
      unfold grid. rewrite seq_last_point.
      pose proof (linspace_point_last (mn - f / 2) (mx + f / 2) (num - 1) Hn1)
        as Hl.
      replace (num - 1 + 1)%Z with num in Hl by lia.
      replace (Z.to_nat (num - 1)) with k in Hl by (unfold k; lia).
      fold pt in Hl. rewrite Hl, Hhalf. lra. }
  set (bins := (mn - (15 # 10) * f) :: (pt 0%nat :: grid) ++ [mx + (15 # 10) * f]).
  set (weights := cdf (pt 0%nat) :: np_diff (List.map cdf (pt 0%nat :: grid))
                    ++ [1 - cdf (List.last grid (pt 0%nat))]).
  assert (length bins = S (length weights)) as Hlen.
  { unfold bins, weights. cbn [length]. rewrite !length_app. cbn [length].
    change (List.map cdf (pt 0%nat :: grid))
      with (cdf (pt 0%nat) :: List.map cdf grid).
    rewrite (np_diff_length (cdf (pt 0%nat)) (List.map cdf grid)).
    rewrite length_map. lia. }
  assert (np_sum weights == 1) as Hsum.
  { unfold weights. change (np_sum (?x :: ?l)) with (x + np_sum l).
    change (List.map cdf (pt 0%nat :: grid))
      with (cdf (pt 0%nat) :: List.map cdf grid).
    rewrite np_sum_app, np_sum_np_diff, last_map.
    cbn [np_sum fold_right]. ring. }
  destruct (valid_continuous_decided bins weights) as (r & Hr & _ & Hiff).
  exists bins, weights, r. split; [|split; [|split; [|split; [|split]]]].
  - rewrite Hcall. unfold bins. cbn [List.map]. by rewrite map_app.
  - unfold bins. constructor.
    + apply sorted_le_snoc; [exact Hgrid|]. lra.
    + cbn [app]. constructor. rewrite Hfirst. lra.
  - exact Hlen.
  - exact Hsum.
  - exact Hr.
  - rewrite Hiff. unfold valid_continuous. split; [by intros (_ & ? & _)|].
    intros Hs. split; [done|]. split; [done|].
    rewrite Hsum. vm_compute. discriminate.
Qed.
End KdeBins.

Lemma kde_partition_data_estimate_tails_witness :
  exists inner weights : list Q,
    inner <> [] /\
    kde_partition_data uniform_kde [1; 2; 3]%Q true
    = Ok (mk_continuous
            (Fin (1 - (15 # 10) * (1 # 2))%Q
               :: List.map Fin inner ++ [Fin (3 + (15 # 10) * (1 # 2))%Q])
            weights) /\
    kde_partition_data uniform_kde [1; 2; 3]%Q false
    = Ok (mk_continuous (NegInf :: List.map Fin inner ++ [PosInf]) weights).
Proof.
  apply (kde_partition_data_estimate_tails uniform_kde [1; 2; 3]%Q
           (mk_kde (1 # 2) (fun x => Qmax 0 (Qmin 1 ((x + 1) / 5)))%Q) 1%Q 3%Q);
    reflexivity.
Defined.

Lemma kde_partition_data_validity_witness :
  exists (bins weights : list Q) (r : bool),
    kde_partition_data uniform_kde [1; 2; 3]%Q true
    = Ok (mk_continuous (List.map Fin bins) weights) /\
    Sorted Qle bins /\
    length bins = S (length weights) /\
    (np_sum weights == 1)%Q /\
    is_valid_continuous_partition_object
      (Some (continuous_partition_object bins weights)) = Ok r /\
    (r = true <-> Sorted Qlt bins).
Proof.
  apply (kde_partition_data_validity uniform_kde [1; 2; 3]%Q
           (mk_kde (1 # 2) (fun x => Qmax 0 (Qmin 1 ((x + 1) / 5)))%Q));
    [reflexivity | reflexivity | discriminate].
Defined.

(** ** Further properties of [continuous_partition_data] *)

Section ContinuousWeights.
Local Open Scope Q_scope.

Lemma count_if_le (g : Q -> bool) (data : list Q) :
  (count_if g data <= length data)%nat.
Proof.
  unfold count_if. induction data as [|x data IH]; [done|].
  cbn [List.filter]. destruct (g x); cbn [length]; lia.
Qed.

Lemma histogram_counts_le (data edges : list Q) :
  Forall (fun c => (c <= length data)%nat) (histogram_counts data edges).
Proof.
  induction edges as [|a edges IH]; [constructor|].
  destruct edges as [|b edges]; [constructor|].
  destruct edges as [|c edges].
  - repeat constructor. apply count_if_le.
  - change (histogram_counts data (a :: b :: c :: edges))
      with (count_if (fun x => Qle_bool a x && Qlt_bool x b) data
              :: histogram_counts data (b :: c :: edges)).
    constructor; [apply count_if_le|exact IH].
Qed.

Lemma histogram_counts_length_pred (data edges : list Q) :
  length (histogram_counts data edges) = (length edges - 1)%nat.
Proof.
  destruct edges as [|a rest]; [done|].
  rewrite histogram_counts_length. cbn [length]. lia.
Qed.

(** What any mode returns: the edges of the histogram and, for each bin,
    the share of the sample counted in it. *)
Lemma continuous_partition_data_inv
    (au : list Q -> list Q) (data : list Q) (bins : string) (n_bins : Z)
    (p : continuous_partition) :
  continuous_partition_data au data bins n_bins = Ok p ->
  exists edges,
    cp_bins p = List.map Fin edges /\
    cp_weights p
    = List.map (fun c => inject_Z (Z.of_nat c)
                         / inject_Z (Z.of_nat (length data)))
        (histogram_counts data edges).
Proof.
  unfold continuous_partition_data.
  destruct (if String.eqb bins "uniform" then _ else _) as [b|]; [|done].
  cbn [rbind]. unfold np_histogram.
  assert (forall edges,
            rbind (divide_counts (histogram_counts data edges) (length data))
              (fun weights => Ok (mk_continuous (List.map Fin edges) weights))
            = Ok p ->
            exists edges0,
              cp_bins p = List.map Fin edges0 /\
              cp_weights p
              = List.map (fun c => inject_Z (Z.of_nat c)
                                   / inject_Z (Z.of_nat (length data)))
                  (histogram_counts data edges0)) as Hdiv.
  { intros edges. unfold divide_counts.
    destruct (length data) as [|d] eqn:El.
    - destruct (histogram_counts data edges) as [|c cs] eqn:Ec; [|done].
      cbn [rbind]. intros [= <-]. exists edges. by rewrite Ec.
    - cbn [rbind]. intros [= <-]. by exists edges. }
  destruct b as [edges|].
  - destruct (monotonic edges); [|done]. cbn [rbind]. apply Hdiv.
  - cbn [rbind]. apply Hdiv.
Qed.

(** On a sample that is not empty, whatever the mode, every weight of the
    partition that is returned lies between 0 and 1 and there is one weight
    less than bin edges (none when there are no edges). *)
Theorem continuous_partition_data_weights_range
    (au : list Q -> list Q) (data : list Q) (bins : string) (n_bins : Z)
    (p : continuous_partition) :
  data <> [] ->
  continuous_partition_data au data bins n_bins = Ok p ->
  Forall (fun w => 0 <= w <= 1) (cp_weights p) /\
  length (cp_weights p) = (length (cp_bins p) - 1)%nat.
Proof.
  intros Hd Hp. destruct (continuous_partition_data_inv _ _ _ _ _ Hp)
    as (edges & -> & ->). split.
  - pose proof (histogram_counts_le data edges) as Hle.
    induction Hle as [|c cs Hc _ IH]; [constructor|].
    cbn [List.map]. constructor; [|exact IH].
    destruct (length data) as [|d] eqn:El.
    + by destruct data.
    + assert (0 < inject_Z (Z.of_nat (S d))) as Hpos.
      { change 0 with (inject_Z 0). rewrite <- Zlt_Qlt. lia. }
      split.
      * apply Qle_shift_div_l; [exact Hpos|].
        rewrite Qmult_0_l. change 0 with (inject_Z 0). rewrite <- Zle_Qle. lia.
      * apply Qle_shift_div_r; [exact Hpos|].
        rewrite Qmult_1_l. rewrite <- Zle_Qle. lia.
  - rewrite !length_map. apply histogram_counts_length_pred.
Qed.

(** 'uniform' mode raises [ValueError] on the empty sample, whatever the
    number of bins ([np.min] fails first), and on any sample when
    [n_bins + 1] is negative ([np.linspace] refuses the number of
    points). *)
Theorem continuous_partition_data_uniform_errors
    (au : list Q -> list Q) (data : list Q) (n_bins : Z) :
  data = [] \/ (n_bins + 1 < 0)%Z ->
  exists msg,
    continuous_partition_data au data "uniform" n_bins = Raise (ValueError msg).
Proof.
  intros [->|Hn]; [by eexists|].
  unfold continuous_partition_data.
  change (String.eqb "uniform" "uniform") with true. cbv iota.
  destruct data as [|x data]; [by eexists|].
  cbn [np_min np_max rbind]. unfold np_linspace.
  destruct (n_bins + 1 <? 0)%Z eqn:E; [|lia]. by eexists.
Qed.
End ContinuousWeights.

Lemma continuous_partition_data_weights_range_witness :
  exists p,
    continuous_partition_data (fun _ => [0; 10]%Q) [1; 2; 3; 4]%Q "auto" 10 = Ok p /\
    Forall (fun w => 0 <= w <= 1)%Q (cp_weights p) /\
    length (cp_weights p) = (length (cp_bins p) - 1)%nat.
Proof.
  eexists. split; [reflexivity|].
  apply (continuous_partition_data_weights_range
           (fun _ => [0; 10]%Q) [1; 2; 3; 4]%Q "auto" 10);
    [discriminate | reflexivity].
Defined.

Lemma continuous_partition_data_uniform_errors_witness :
  exists msg,
    continuous_partition_data (fun _ => []) [1; 2]%Q "uniform" (-2)
    = Raise (ValueError msg).
Proof.
  apply (continuous_partition_data_uniform_errors (fun _ => []) [1; 2]%Q (-2)).
  right. lia.
Defined.

(** ** 'ntile' mode *)

Section NtileProperties.
Local Open Scope Q_scope.

Lemma insert_sorted_Permutation (x : Q) (l : list Q) :
  Permutation (insert_sorted x l) (x :: l).
Proof.
  induction l as [|y l IH]; [done|]. cbn [insert_sorted].
  destruct (Qle_bool x y); [done|]. rewrite IH. apply perm_swap.
Qed.

Lemma np_sort_Permutation (a : list Q) : Permutation (np_sort a) a.
Proof.
  induction a as [|x a IH]; [done|].
  change (np_sort (x :: a)) with (insert_sorted x (np_sort a)).
  by rewrite insert_sorted_Permutation, IH.
Qed.

Lemma nth_pred_last (s : list Q) (d : Q) :
  nth (length s - 1) s d = List.last s d.
Proof.
  induction s as [|x s IH]; [done|]. destruct s as [|y s]; [done|].
  change (List.last (x :: y :: s) d) with (List.last (y :: s) d).
  rewrite <- IH.
  by replace (length (x :: y :: s) - 1)%nat with (S (length (y :: s) - 1))
    by (cbn [length]; lia).
Qed.

Lemma percentile_of_sorted_zero (s : list Q) (q : Q) :
  q == 0 -> percentile_of_sorted s q == nth 0 s (List.last s 0).
Proof.
  intros Hq. unfold percentile_of_sorted.
  set (L := inject_Z (Z.of_nat (length s - 1))).
  assert (q / 100 * L == 0) as Hidx by (rewrite Hq; unfold Qdiv; ring).
  rewrite (Qfloor_comp _ _ Hidx). change (Z.to_nat (Qfloor 0)) with 0%nat.
  rewrite Hidx. change (inject_Z (Z.of_nat 0)) with 0. ring.
Qed.

Lemma percentile_of_sorted_hundred (s : list Q) (q : Q) :
  q == 100 -> percentile_of_sorted s q == List.last s 0.
Proof.
  intros Hq. unfold percentile_of_sorted.
  set (L := inject_Z (Z.of_nat (length s - 1))).
  assert (q / 100 * L == L) as Hidx by (rewrite Hq; field).
  assert (Qfloor (q / 100 * L) = Z.of_nat (length s - 1)) as Hfl
    by (rewrite (Qfloor_comp _ _ Hidx); apply Qfloor_Z).
  rewrite Hfl, Nat2Z.id, nth_pred_last, Hidx. unfold L.
  assert (List.last s (List.last s 0) = List.last s 0) as ->
    by (destruct s as [|x s]; [done|]; by rewrite !last_cons_default).
  ring.
Qed.

Lemma sorted_first_lower (s : list Q) :
  monotonic s = true -> Forall (fun x => nth 0 s (List.last s 0) <= x) s.
Proof.
  intros Hm. apply List.Forall_forall. intros x Hx.
  destruct (In_nth s x (List.last s 0) Hx) as (i & _ & <-).
  apply nth_sorted_le; [done|lia].
Qed.

Lemma sorted_last_upper (s : list Q) :
  monotonic s = true -> Forall (fun x => x <= List.last s 0) s.
Proof.
  intros Hm. apply List.Forall_forall. intros x Hx.
  destruct (In_nth s x (List.last s 0) Hx) as (i & Hi & <-).
  eapply Qle_trans; [apply (nth_sorted_le s i (length s) Hm); lia|].
  rewrite nth_overflow by lia. lra.
Qed.

Lemma fold_left_Qmin_In (l : list Q) (x : Q) : In (fold_left Qmin l x) (x :: l).
Proof.
  revert x. induction l as [|y l IH]; intros x; [by left|].
  cbn [fold_left]. destruct (IH (Qmin x y)) as [E|Hin]; [|by right; right].
  rewrite <- E. unfold Qmin, GenericMinMax.gmin.
  destruct (x ?= y); [by left|by left|by right; left].
Qed.

Lemma fold_left_Qmax_In (l : list Q) (x : Q) : In (fold_left Qmax l x) (x :: l).
Proof.
  revert x. induction l as [|y l IH]; intros x; [by left|].
  cbn [fold_left]. destruct (IH (Qmax x y)) as [E|Hin]; [|by right; right].
  rewrite <- E. unfold Qmax, GenericMinMax.gmax.
  destruct (x ?= y); [by left|by right; left|by left].
Qed.

(** The first element of the sorted sample is its minimum, the last one its
    maximum. *)
Lemma np_sort_first_last (data : list Q) (mn mx : Q) :
  np_min data = Ok mn -> np_max data = Ok mx ->
  nth 0 (np_sort data) (List.last (np_sort data) 0) == mn /\
  List.last (np_sort data) 0 == mx.
Proof.
  intros Hmn Hmx. set (s := np_sort data).
  pose proof (monotonic_np_sort data) as Hm. fold s in Hm.
  pose proof (np_sort_Permutation data) as Hp. fold s in Hp.
  pose proof (np_min_lower data mn Hmn) as Hlo.
  pose proof (np_max_upper data mx Hmx) as Hhi.
  pose proof (sorted_first_lower s Hm) as Hfirst.
  pose proof (sorted_last_upper s Hm) as Hlast.
  rewrite List.Forall_forall in Hlo, Hhi, Hfirst, Hlast.
  destruct data as [|x rest]; [done|].
  injection Hmn as <-. injection Hmx as <-.
  assert (s <> []) as Hne.
  { intros E. rewrite E in Hp. by apply Permutation_nil in Hp. }
  assert (In (nth 0 s (List.last s 0)) (x :: rest)) as Hin0.
  { apply (Permutation_in _ Hp). apply nth_In.
    destruct s; [done|]. cbn [length]. lia. }
  assert (In (List.last s 0) (x :: rest)) as Hin1.
  { apply (Permutation_in _ Hp). rewrite <- nth_pred_last. apply nth_In.
    destruct s; [done|]. cbn [length]. lia. }
  split; apply Qle_antisym.
  - apply Hfirst. apply (Permutation_in _ (Permutation_sym Hp)).
    apply fold_left_Qmin_In.
  - by apply Hlo.
  - by apply Hhi.
  - apply Hlast. apply (Permutation_in _ (Permutation_sym Hp)).
    apply fold_left_Qmax_In.
Qed.

(** 'ntile' mode on a sample that is not empty, for at least one bin: the
    partition is built; there are [n_bins + 1] edges, which do not
    decrease, the first one the minimum and the last one the maximum of
    the sample; there are [n_bins] weights and they add up to 1. *)
Theorem continuous_partition_data_ntile
    (au : list Q -> list Q) (data : list Q) (n_bins : Z) (mn mx : Q) :
  np_min data = Ok mn ->
  np_max data = Ok mx ->
  (1 <= n_bins)%Z ->
  exists edges weights : list Q,
    continuous_partition_data au data "ntile" n_bins
    = Ok (mk_continuous (List.map Fin edges) weights) /\
    Z.of_nat (length edges) = (n_bins + 1)%Z /\
    Z.of_nat (length weights) = n_bins /\
    nth 0 edges 0 == mn /\
    List.last edges 0 == mx /\
    Sorted Qle edges /\
    np_sum weights == 1.
Proof.
  intros Hmn Hmx Hn.
  assert (data <> []) as Hd by (by destruct data).
  destruct (np_sort_first_last data mn mx Hmn Hmx) as [Hs0 Hs1].
  set (s := np_sort data) in *.
  set (pt := linspace_point 0 100 (n_bins + 1)).
  set (k := Z.to_nat n_bins).
  assert (Z.to_nat (n_bins + 1) = S k) as Hnum by (unfold k; lia).
  assert (k <> 0%nat) as Hk by (unfold k; lia).
  set (g := fun i => percentile_of_sorted s (pt i)).
  set (edges := g 0%nat :: List.map g (seq 1 k)).
  assert (0 <= (100 - 0) / inject_Z (n_bins + 1 - 1)) as Hstep.
  { replace (n_bins + 1 - 1)%Z with n_bins by lia.
    apply Qle_shift_div_l; [|lra].
    change 0 with (inject_Z 0). rewrite <- Zlt_Qlt. lia. }
  assert (Forall (fun q => 0 <= q <= 100) (List.map pt (seq 0 (S k)))) as Hrange.
  { apply List.Forall_forall. intros q Hq.
    apply in_map_iff in Hq as (i & <- & Hi). apply in_seq in Hi.
    apply linspace_percent_range; [done|]. fold k. lia. }
  assert (monotonic edges = true) as Hmono.
  { change edges with (List.map g (seq 0 (S k))).
    rewrite <- (List.map_map pt (percentile_of_sorted s)).
    apply monotonic_map_percentile.
    - apply monotonic_np_sort.
    - eapply Forall_impl; [exact Hrange|]. by intros q [? _].
    - by apply monotonic_linspace. }
  assert (g 0%nat == mn) as Hfirst.
  { unfold g. rewrite percentile_of_sorted_zero; [exact Hs0|].
    apply linspace_point_first. }
  assert (List.last (List.map g (seq 1 k)) (g 0%nat) == mx) as Hlast.
  { rewrite seq_last_point. unfold g.
    rewrite percentile_of_sorted_hundred; [exact Hs1|].
    by apply linspace_point_last. }
  exists edges. eexists.
  assert (continuous_partition_data au data "ntile" n_bins
          = Ok (mk_continuous (List.map Fin edges)
                  (List.map (fun c => inject_Z (Z.of_nat c)
                                      / inject_Z (Z.of_nat (length data)))
                     (histogram_counts data edges)))) as Hcall.
  { unfold continuous_partition_data.
    change (String.eqb "ntile" "uniform") with false.
    change (String.eqb "ntile" "ntile") with true. cbv iota.
    unfold np_linspace.
    destruct (n_bins + 1 <? 0)%Z eqn:E; [lia|]. cbn [rbind].
    rewrite Hnum. fold pt. unfold np_percentile.
    destruct data as [|x data]; [done|].
    assert (forallb (fun q => Qle_bool 0 q && Qle_bool q 100)
              (List.map pt (seq 0 (S k))) = true) as ->.
    { apply forallb_forall. intros q Hq.
      rewrite List.Forall_forall in Hrange. destruct (Hrange q Hq).
      apply andb_true_iff. by rewrite !Qle_bool_iff. }
    cbn [rbind]. rewrite List.map_map. fold s.
    change (List.map (fun x0 => percentile_of_sorted s (pt x0)) (seq 0 (S k)))
      with edges.
    by apply partition_of_edges. }
  split; [exact Hcall|]. split; [|split; [|split; [|split; [|split]]]].
  - unfold edges. cbn [length]. rewrite length_map, length_seq. unfold k. lia.
  - rewrite length_map. unfold edges.
    rewrite histogram_counts_length, length_map, length_seq. unfold k. lia.
  - exact Hfirst.
  - unfold edges. rewrite last_cons_default. exact Hlast.
  - by apply monotonic_Sorted.
  - unfold edges. apply histogram_weights_sum; [done| |exact Hmono|].
    + by destruct k.
    + pose proof (np_min_lower data mn Hmn) as Hlo.
      pose proof (np_max_upper data mx Hmx) as Hhi.
      rewrite List.Forall_forall in Hlo, Hhi |- *. intros x Hx.
      cbv beta. split; [rewrite Hfirst; by apply Hlo|rewrite Hlast; by apply Hhi].
Qed.
End NtileProperties.

Lemma continuous_partition_data_ntile_witness :
  exists edges weights : list Q,
    continuous_partition_data (fun _ => []) [4; 1; 3; 2]%Q "ntile" 2
    = Ok (mk_continuous (List.map Fin edges) weights) /\
    Z.of_nat (length edges) = (2 + 1)%Z /\
    Z.of_nat (length weights) = 2%Z /\
    (nth 0 edges 0 == 1)%Q /\
    (List.last edges 0 == 4)%Q /\
    Sorted Qle edges /\
    (np_sum weights == 1)%Q.
Proof.
  apply (continuous_partition_data_ntile (fun _ => []) [4; 1; 3; 2]%Q 2 1%Q 4%Q);
    [reflexivity | reflexivity | lia].
Defined.

(** ** Further properties of the expectations on a SQL table *)

Lemma not_in_true (x : sqlval) (vals : list sqlval) :
  vals <> [] ->
  match tri_not (sql_in x vals) with TTrue => true | _ => false end
  = negb (bool_decide (x = SqlNull)) && negb (bool_decide (x ∈ vals))
    && negb (bool_decide (SqlNull ∈ vals)).
Proof.
  intros Hne. unfold sql_in. destruct vals as [|v0 vals]; [done|].
  destruct x as [|z|s]; [done| |];
    (destruct (bool_decide (_ ∈ v0 :: vals)) eqn:E1; [done|]);
    by destruct (bool_decide (SqlNull ∈ v0 :: vals)).
Qed.

Lemma filter_all {A} (g : A -> bool) (l : list A) :
  (forall x, g x = true) -> List.filter g l = l.
Proof.
  intros Hg. induction l as [|x l IH]; [done|]. cbn [List.filter].
  by rewrite Hg, IH.
Qed.

(** On a table that has the column, [expect_column_values_to_be_in_set]
    sends two queries and leaves the store alone.  With a [values_set] that
    is not empty, the count it returns is the number of rows whose cell is
    not null and not in [values_set] (no row at all when [values_set] holds
    a null); with an empty [values_set] every row counts, those with a null
    cell too.  The sample holds the first 20 of these cells, or all of them
    when they are fewer. *)
Theorem expect_column_values_to_be_in_set_result
    (self : SqlAlchemyDataSet) (column : string) (values_set : list sqlval)
    (h : gmap positive (gmap string pyval)) (t : sqltable) (i : nat) :
  engine self !! table_name self = Some t ->
  column_index column (t_columns t) = Some i ->
  let cells := List.map (cell i) (t_rows t) in
  let unexpected :=
    match values_set with
    | [] => cells
    | _ :: _ =>
        List.filter (fun v => negb (bool_decide (v = SqlNull))
                              && negb (bool_decide (v ∈ values_set))
                              && negb (bool_decide (SqlNull ∈ values_set)))
          cells
    end in
  exists sample,
    expect_column_values_to_be_in_set self column values_set h
    = mk_outcome
        (Ok (mk_func_result (SqlInt (Z.of_nat (length unexpected))) sample)) h
        [ limit (where_ (select_from (SelColumn column) (table_name self))
                   (NotIn column values_set)) 20;
          where_ (select_from CountStar (table_name self))
            (NotIn column values_set) ] /\
    sample = firstn 20 unexpected /\
    length sample = Nat.min 20 (length unexpected) /\
    (values_set <> [] ->
     Forall (fun v => v <> SqlNull /\ v ∉ values_set) sample).
Proof.
  intros Ht Hi cells unexpected.
  assert (List.map (cell i)
            (List.filter
               (fun row => match tri_not (sql_in (cell i row) values_set) with
                           | TTrue => true
                           | _ => false
                           end) (t_rows t)) = unexpected) as Hrows.
  { unfold unexpected, cells. destruct values_set as [|v0 vals].
    - by rewrite filter_all.
    - induction (t_rows t) as [|row rows IH]; [done|].
      cbn [List.filter List.map]. rewrite not_in_true by done.
      destruct (negb _ && negb _ && negb _); cbn [List.map]; by rewrite IH. }
  exists (firstn 20 unexpected). split; [|split; [done|split]].
  - unfold expect_column_values_to_be_in_set, mbind, M_bind, fmap, M_fmap,
      mret, M_ret, engine_execute, execute, unexpected_count_limit.
    cbn [limit where_ select_from q_from q_where q_select q_limit o_result
         o_heap o_trace].
    rewrite Ht. cbn [where_rows]. unfold resolve_column. rewrite Hi.
    cbn [rbind apply_limit o_result o_heap o_trace scalar firstn app].
    rewrite Hrows. rewrite <- Hrows at 2. by rewrite length_map.
  - apply length_firstn.
  - intros Hne. apply List.Forall_forall. intros v Hv.
    assert (In v unexpected) as Hin.
    { rewrite <- (firstn_skipn 20 unexpected). apply in_or_app. by left. }
    unfold unexpected in Hin. destruct values_set as [|v0 vals]; [done|].
    apply filter_In in Hin as [_ Hp].
    apply andb_true_iff in Hp as [Hp _]. apply andb_true_iff in Hp as [H1 H2].
    rewrite negb_true_iff, bool_decide_eq_false in H1, H2. done.
Qed.

Lemma expect_column_values_to_be_in_set_result_witness :
  exists sample,
    expect_column_values_to_be_in_set ten_rows_dataset "x" one_to_five ∅
    = mk_outcome (Ok (mk_func_result (SqlInt 3) sample)) ∅
        [ limit (where_ (select_from (SelColumn "x") "t")
                   (NotIn "x" one_to_five)) 20;
          where_ (select_from CountStar "t") (NotIn "x" one_to_five) ] /\
    sample = [SqlInt 6; SqlInt 7; SqlInt 8] /\
    length sample = 3%nat /\
    (one_to_five <> [] ->
     Forall (fun v => v <> SqlNull /\ v ∉ one_to_five) sample).
Proof.
  apply (expect_column_values_to_be_in_set_result ten_rows_dataset "x"
           one_to_five ∅ ten_rows 0); reflexivity.
Defined.

Lemma count_null_rows (i : nat) (rows : list (list sqlval)) :
  (Z.of_nat (length rows)
   - Z.of_nat (length (List.filter
       (fun row => negb (bool_decide (cell i row = SqlNull))) rows))
   = Z.of_nat (length (List.filter
       (fun row => bool_decide (cell i row = SqlNull)) rows)))%Z.
Proof.
  induction rows as [|row rows IH]; [done|]. cbn [List.filter].
  destruct (bool_decide (cell i row = SqlNull)); cbn [negb length]; lia.
Qed.

(** On a table that has the column, whatever the wrapped expectation and
    the methods of the base class are: the wrapper sends the two counting
    queries, then runs the expectation, and what it hands on as
    [nonnull_count] (and subtracts [unexpected_count] from) is the number of
    rows whose cell IS null; [element_count] is the number of rows. *)
Theorem inner_wrapper_counts
    (Ret : Type) (B : DataSet Ret) (Args : Type)
    (func : SqlAlchemyDataSet -> string -> Args -> M func_result)
    (self : SqlAlchemyDataSet) (column : string) (mostly : option Q)
    (rf : pyarg) (args : Args) (h : gmap positive (gmap string pyval))
    (t : sqltable) (i : nat) :
  engine self !! table_name self = Some t ->
  column_index column (t_columns t) = Some i ->
  let element_count := SqlInt (Z.of_nat (length (t_rows t))) in
  let null_rows :=
    SqlInt (Z.of_nat (length (List.filter
              (fun row => bool_decide (cell i row = SqlNull)) (t_rows t)))) in
  inner_wrapper func self column mostly (Some rf) args h
  = let o :=
      (result ← func self column args;
       success_count ←
         lift_result (py_sub null_rows (fr_unexpected_count result));
       '(success, _) ←
         _calc_map_expectation_success success_count null_rows mostly;
       _format_column_map_output rf success element_count None null_rows None
         success_count (fr_partial_unexpected_list result) None) h in
    mk_outcome (o_result o) (o_heap o)
      (null_count_query self column :: count_query self :: o_trace o).
Proof.
  intros Ht Hi element_count null_rows.
  unfold inner_wrapper.
  unfold mbind at 1 2 3 4. unfold M_bind at 1 2 3 4.
  unfold fmap, M_fmap, mret, M_ret, engine_execute.
  cbn [o_result o_heap o_trace].
  rewrite (execute_null_count_query self column t i Ht Hi).
  assert (execute (engine self) (count_query self)
          = Ok [SqlInt (Z.of_nat (length (t_rows t)))]) as ->.
  { unfold execute, count_query. cbn [select_from q_from q_where q_select q_limit].
    by rewrite Ht. }
  cbn [o_result o_heap o_trace scalar lift_result py_sub as_int rbind].
  rewrite count_null_rows. fold null_rows element_count.
  cbn [app]. reflexivity.
Qed.

Lemma inner_wrapper_counts_witness :
  inner_wrapper (DataSet0:=SpecDataSet) expect_column_values_to_be_in_set
    ten_rows_dataset "x" None (Some (AStr "BASIC")) one_to_five ∅
  = let o :=
      (result ← expect_column_values_to_be_in_set ten_rows_dataset "x" one_to_five;
       success_count ←
         lift_result (py_sub (SqlInt 2) (fr_unexpected_count result));
       '(success, _) ←
         spec_calc_map_expectation_success success_count (SqlInt 2) None;
       spec_format_column_map_output (AStr "BASIC") success (SqlInt 10) None
         (SqlInt 2) None success_count (fr_partial_unexpected_list result) None) ∅ in
    mk_outcome (o_result o) (o_heap o)
      (null_count_query ten_rows_dataset "x" :: count_query ten_rows_dataset
         :: o_trace o).
Proof.
  apply (inner_wrapper_counts ExpectationResult SpecDataSet (list sqlval)
           expect_column_values_to_be_in_set ten_rows_dataset "x" None
           (AStr "BASIC") one_to_five ∅ ten_rows 0); reflexivity.
Defined.

(** When the engine refuses the first query (no such table, no such
    column), the wrapper raises that error having sent nothing else: the
    expectation and the methods of the base class are not run and the
    store is untouched. *)
Theorem inner_wrapper_first_query_fails
    (Ret : Type) (B : DataSet Ret) (Args : Type)
    (func : SqlAlchemyDataSet -> string -> Args -> M func_result)
    (self : SqlAlchemyDataSet) (column : string) (mostly : option Q)
    (rf : pyarg) (args : Args) (h : gmap positive (gmap string pyval))
    (e : exn) :
  execute (engine self) (null_count_query self column) = Raise e ->
  inner_wrapper func self column mostly (Some rf) args h
  = mk_outcome (Raise e) h [null_count_query self column].
Proof.
  intros He. unfold inner_wrapper.
  unfold mbind at 1 2. unfold M_bind at 1 2.
  unfold fmap, M_fmap, mret, M_ret, engine_execute.
  cbn [o_result o_heap o_trace]. rewrite He. reflexivity.
Qed.

Lemma inner_wrapper_first_query_fails_witness :
  inner_wrapper (DataSet0:=SpecDataSet) expect_column_values_to_be_in_set
    (mk_dataset "missing" ∅ ∅) "x" None (Some (AStr "BASIC")) one_to_five ∅
  = mk_outcome (Raise (no_such_table "missing")) ∅
      [null_count_query (mk_dataset "missing" ∅ ∅) "x"].
Proof.
  apply (inner_wrapper_first_query_fails ExpectationResult SpecDataSet
           (list sqlval) expect_column_values_to_be_in_set
           (mk_dataset "missing" ∅ ∅) "x" None (AStr "BASIC") one_to_five ∅).
  reflexivity.
Defined.

(** ** Properties of [DotDict] *)

(** An attribute that is not one of the class reads back as the value it
    was set to, shows in [dir()], and setting it changes no other
    attribute. *)
Theorem DotDict_set_get
    (class_attribute : string -> option pyval)
    (d : gmap string pyval) (attr : string) (value : pyval) :
  class_attribute attr = None ->
  let d' := DotDict.__setattr__ d attr value in
  DotDict.getattr class_attribute d' attr = value /\
  attr ∈ DotDict.__dir__ d' /\
  forall other, other <> attr ->
    DotDict.getattr class_attribute d' other
    = DotDict.getattr class_attribute d other.
Proof.
  intros Hc d'. unfold DotDict.getattr, DotDict.__getattr__, DotDict.__dir__,
    d', DotDict.__setattr__.
  rewrite Hc, lookup_insert_eq. split; [done|]. split.
  - rewrite dom_insert. set_solver.
  - intros other Hne. by rewrite lookup_insert_ne.
Qed.

Lemma DotDict_set_get_witness :
  let d' := DotDict.__setattr__ ∅ "mean" (PyInt 3) in
  DotDict.getattr (fun _ => None) d' "mean" = PyInt 3 /\
  "mean" ∈ DotDict.__dir__ d' /\
  forall other, other <> "mean" ->
    DotDict.getattr (fun _ => None) d' other
    = DotDict.getattr (fun _ => None) ∅ other.
Proof.
  apply (DotDict_set_get (fun _ => None) ∅ "mean" (PyInt 3)). reflexivity.
Defined.

(** Reading an attribute never fails: one that is neither of the class nor
    a key reads as [None], just as one that was set to [None]. *)
Theorem DotDict_missing_reads_None
    (class_attribute : string -> option pyval)
    (d : gmap string pyval) (attr : string) :
  class_attribute attr = None ->
  DotDict.getattr class_attribute (delete attr d) attr = PyNone /\
  DotDict.getattr class_attribute (DotDict.__setattr__ d attr PyNone) attr
  = DotDict.getattr class_attribute (delete attr d) attr.
Proof.
  intros Hc. unfold DotDict.getattr, DotDict.__getattr__, DotDict.__setattr__.
  by rewrite Hc, lookup_delete_eq, lookup_insert_eq.
Qed.

Lemma DotDict_missing_reads_None_witness :
  DotDict.getattr (fun _ => None) (delete "mean" ∅) "mean" = PyNone /\
  DotDict.getattr (fun _ => None) (DotDict.__setattr__ ∅ "mean" PyNone) "mean"
  = DotDict.getattr (fun _ => None) (delete "mean" ∅) "mean".
Proof.
  apply (DotDict_missing_reads_None (fun _ => None) ∅ "mean"). reflexivity.
Defined.

(** Deleting an attribute that was set removes the key and nothing else;
    deleting one that is not a key raises [KeyError], so deleting twice
    fails the second time. *)
Theorem DotDict_delattr
    (d : gmap string pyval) (attr : string) (value : pyval) :
  DotDict.__delattr__ (DotDict.__setattr__ d attr value) attr
  = Ok (delete attr d) /\
  (attr ∉ DotDict.__dir__ (delete attr d)) /\
  DotDict.__delattr__ (delete attr d) attr = Raise (KeyError attr).
Proof.
  unfold DotDict.__delattr__, DotDict.__setattr__, DotDict.__dir__.
  rewrite lookup_insert_eq, lookup_delete_eq, delete_insert_eq.
  split; [done|]. split; [|done]. apply not_elem_of_dom, lookup_delete_eq.
Qed.

(** A name of the class (such as [keys]) can be set, and is then a key of
    the dict, but reading the attribute still gives what the class has
    under that name. *)
Theorem DotDict_class_attribute_shadows
    (class_attribute : string -> option pyval)
    (d : gmap string pyval) (attr : string) (value method : pyval) :
  class_attribute attr = Some method ->
  let d' := DotDict.__setattr__ d attr value in
  d' !! attr = Some value /\
  DotDict.getattr class_attribute d' attr = method.
Proof.
  intros Hc d'. unfold DotDict.getattr, d', DotDict.__setattr__.
  by rewrite Hc, lookup_insert_eq.
Qed.

Lemma DotDict_class_attribute_shadows_witness :
  let class_attribute := fun name : string =>
    if String.eqb name "keys"
    then Some (PyOther "<built-in method keys>" "builtin_function_or_method")
    else None in
  let d' := DotDict.__setattr__ ∅ "keys" (PyInt 1) in
  d' !! "keys" = Some (PyInt 1) /\
  DotDict.getattr class_attribute d' "keys"
  = PyOther "<built-in method keys>" "builtin_function_or_method".
Proof.
  intros class_attribute.
  apply (DotDict_class_attribute_shadows class_attribute ∅ "keys" (PyInt 1)).
  reflexivity.
Defined.

(** ** Properties of [get_data_context] *)

(** [get_data_context] returns no context: an unknown type is a
    [ValueError], and for the two known types the constructor hands the
    tuple and the dict on to [connect] as two positional arguments, which
    takes one, whatever the arguments were. *)
Theorem get_data_context_raises
    (create_engine : pyval -> result pyval) (context_type : string)
    (args : list pyval) (kwargs : list (string * pyval)) :
  (context_type <> "sqlalchemy" -> context_type <> "pandas_directory" ->
   get_data_context create_engine context_type args kwargs
   = Raise (ValueError "Unknown data context.")) /\
  (context_type = "sqlalchemy" \/ context_type = "pandas_directory" ->
   exists msg,
     get_data_context create_engine context_type args kwargs
     = Raise (TypeError msg)).
Proof.
  split.
  - intros H1 H2. unfold get_data_context.
    apply String.eqb_neq in H1, H2. by rewrite H1, H2.
  - intros [->| ->]; by eexists.
Qed.

(** Called with the connection string alone, as the constructors expect,
    [connect] is reached and the context is built. *)
Theorem DataContext_init_connection_string
    (create_engine : pyval -> result pyval) (connection_string engine : pyval) :
  create_engine connection_string = Ok engine ->
  DataContext_init (SqlAlchemyDataContext_connect create_engine)
    [connection_string] [] = Ok (SqlAlchemyDataContext engine) /\
  DataContext_init PandasCSVDataContext_connect [connection_string] []
  = Ok (PandasCSVDataContext connection_string).
Proof.
  intros He. unfold DataContext_init, SqlAlchemyDataContext_connect,
    PandasCSVDataContext_connect. cbn [connect_arguments rbind]. by rewrite He.
Qed.

Lemma DataContext_init_connection_string_witness :
  DataContext_init (SqlAlchemyDataContext_connect Ok) [PyStr "sqlite://"] []
  = Ok (SqlAlchemyDataContext (PyStr "sqlite://")) /\
  DataContext_init PandasCSVDataContext_connect [PyStr "sqlite://"] []
  = Ok (PandasCSVDataContext (PyStr "sqlite://")).
Proof.
  apply (DataContext_init_connection_string Ok (PyStr "sqlite://")
           (PyStr "sqlite://")). reflexivity.
Defined.

(** ** Properties of [DocInherit] *)

Lemma string_app_assoc (a b c : string) : (a ++ b) ++ c = a ++ b ++ c.
Proof.
  induction a as [|x a IH]; [done|].
  change (String x ((a ++ b) ++ c) = String x (a ++ b ++ c)). by rewrite IH.
Qed.

Lemma string_app_nil_r (a : string) : a ++ "" = a.
Proof.
  induction a as [|x a IH]; [done|].
  change (String x (a ++ "") = String x a). by rewrite IH.
Qed.

(** The inherited docstring is the method's own docstring (empty when it
    has none) followed, for each class of the MRO that has the name with a
    docstring, in MRO order, by a newline and that docstring; a class
    without the name, or with no docstring under it, adds nothing. *)
Theorem DocInherit_get_doc
    (name : string) (mthd_doc : option string)
    (mro : list (gmap string (option string))) :
  DocInherit.__get__ name mthd_doc mro
  = default "" mthd_doc
    ++ String.concat ""
         (List.map (fun parent_doc => DocInherit.newline ++ parent_doc)
            (omap (fun parent : gmap string (option string) =>
                     default None (parent !! name)) mro)).
Proof.
  unfold DocInherit.__get__.
  change (match mthd_doc with Some d => d | None => "" end)
    with (default "" mthd_doc).
  generalize (default "" mthd_doc). induction mro as [|parent mro IH]; intros doc.
  - cbn. by rewrite string_app_nil_r.
  - cbn [fold_left]. rewrite IH. cbn [omap list_omap].
    destruct (parent !! name) as [[parent_doc|]|]; cbn [default]; [|done|done].
    cbn [List.map]. rewrite string_app_assoc. f_equal.
    destruct (omap _ mro) as [|d ds] eqn:E.
    + cbn. by rewrite string_app_nil_r.
    + cbn [List.map String.concat]. by rewrite string_app_assoc.
Qed.
